(** * IELTS speaking tutor: session controller, playback scheduler, sample codec

    A shallow embedding of [src/App.tsx] (the [App] component: its React
    state, its refs, and the callbacks [cleanup], [connect], [onopen],
    [onaudioprocess], [onmessage], [onclose], [onerror]) together with the
    browser objects these callbacks touch.

    JavaScript [number]s are IEEE 754 binary64 values: they are embedded as
    Rocq's primitive [float]s, whose operations are specified by the
    Standard Library against [SpecFloat]. *)

From Stdlib Require Import ZArith List Bool Lia String Ascii.
From Stdlib Require Import Floats Uint63.
Import ListNotations.

Set Warnings "-inexact-float".

(** ** JavaScript numbers *)

Module Number.


Open Scope float_scope.

(** [Math.max(a, b)] (ECMAScript, Math.max): NaN if either argument is
    NaN, otherwise the larger one, with [+0] larger than [-0]. *)
Definition Math_max (a b : float) : float :=
  if is_nan a || is_nan b then nan
  else if a <? b then b
  else if b <? a then a
  else if get_sign a then b else a.

(** [Math.min(a, b)], symmetric. *)
Definition Math_min (a b : float) : float :=
  if is_nan a || is_nan b then nan
  else if a <? b then a
  else if b <? a then b
  else if get_sign a then a else b.

(** The number of elements of an array, as a JavaScript number. *)
Definition of_nat (n : nat) : float := of_uint63 (Uint63.of_Z (Z.of_nat n)).

(** An integer of small magnitude as a JavaScript number. *)
Definition of_Z (z : Z) : float :=
  if (z <? 0)%Z then - of_uint63 (Uint63.of_Z (- z)) else of_uint63 (Uint63.of_Z z).

(** Truncation toward zero of a finite number (the integer part taken by
    the typed-array conversions); 0 for NaN and the infinities. *)
Definition trunc (x : float) : Z :=
  match Prim2SF x with
  | S754_finite s m e =>
      let mag := match e with
                 | Z0 => Zpos m
                 | Zpos p => Z.shiftl (Zpos m) (Zpos p)
                 | Zneg p => Z.shiftr (Zpos m) (Zpos p)
                 end in
      if s then (- mag)%Z else mag
  | _ => 0%Z
  end.

(** Not-NaN and finiteness read on the specification side. *)
Definition sf_is_nan (x : spec_float) : bool :=
  match x with S754_nan => true | _ => false end.

Definition sf_is_finite (x : spec_float) : bool :=
  match x with S754_zero _ | S754_finite _ _ _ => true | _ => false end.

End Number.

(** ** Data model *)

(** [ConnectionStatus] of [src/types.ts]. *)
Inductive ConnectionStatus : Set :=
| DISCONNECTED
| CONNECTING
| CONNECTED
| ERROR.

(** *** Browser and service objects reached from the component *)

(** [AudioContext.state]. *)
Inductive AudioContextState : Set := suspended | running | closed.

(** An [AudioContext]: its sample rate, its state, and the reading of its
    clock ([currentTime], advanced by the audio device). *)
Record AudioContext : Set := mkAudioContext {
  sampleRate : float;
  state : AudioContextState;
  currentTime : float }.

(** A decoded, playable buffer; [duration] is the attribute read by the
    scheduler, [channels] the per-channel sample data. *)
Record AudioBuffer : Set := mkAudioBuffer {
  channels : list (list float);
  duration : float }.

(** An [AudioBufferSourceNode] (a playback handle): the buffer assigned to
    it, whether it is connected to the output gain node, the argument of
    [start(when)] once it was called, and whether [stop()] was called. *)
Record AudioBufferSourceNode : Set := mkSource {
  buffer : option AudioBuffer;
  connected : bool;
  started : option float;
  stopped : bool }.

(** The [ScriptProcessorNode] of the capture pipeline: whether it is
    connected to the destination and whether its [onaudioprocess] callback
    is installed. *)
Record ScriptProcessorNode : Set := mkProcessor {
  proc_connected : bool;
  onaudioprocess_set : bool }.

(** The [MediaStreamAudioSourceNode]: whether it feeds the processor. *)
Record MediaStreamAudioSourceNode : Set := mkInputSource {
  input_connected : bool }.

(** The output [GainNode]: whether it is connected to the destination. *)
Record GainNode : Set := mkGain {
  gain_connected : bool }.

(** A [MediaStream] is the list of its tracks, each live or ended. *)
Inductive MediaStreamTrackState : Set := live | ended.
Definition MediaStream : Set := list MediaStreamTrackState.

(** A [Blob] of the service's API: base64 data and a MIME type. *)
Record Blob : Set := mkBlob {
  data : option string;
  mimeType : option string }.

(** What the component chains on the session promise with [.then]:
    [session.close()] or [session.sendRealtimeInput({ media })]. *)
Inductive Reaction : Set :=
| SessionClose
| SendRealtimeInput (media : Blob).

(** A session promise is the list of the reactions chained on it, oldest
    first. *)
Definition SessionPromise : Set := list Reaction.

(** *** Inbound messages ([LiveServerMessage]) *)

Record Part : Set := mkPart {
  inlineData : option Blob }.

Record Content : Set := mkContent {
  parts : option (list Part) }.

Record LiveServerContent : Set := mkServerContent {
  modelTurn : option Content;
  interrupted : option bool }.

Record LiveServerMessage : Set := mkMessage {
  serverContent : option LiveServerContent }.

(** *** The component: React state, refs, and the objects they reach

    Playback handles and session promises outlive the refs that point to
    them (the set is cleared, the ref is nulled), so they live in two
    stores, [sourceNodes] and [sessionPromises], addressed by position;
    [sourcesRef] is the [Set] of handles in insertion order. The other
    objects are reached through one ref each and are kept in that ref. *)
Record App : Set := mkApp {
  (* useState *)
  status : ConnectionStatus;
  hasPermission : bool;
  isUserSpeaking : bool;
  isAiSpeaking : bool;
  (* useRef: audio graph *)
  inputAudioContextRef : option AudioContext;
  outputAudioContextRef : option AudioContext;
  inputSourceRef : option MediaStreamAudioSourceNode;
  processorRef : option ScriptProcessorNode;
  outputNodeRef : option GainNode;
  (* useRef: connection *)
  sessionPromiseRef : option nat;
  streamRef : option MediaStream;
  (* useRef: playback *)
  nextStartTimeRef : float;
  sourcesRef : list nat;
  (* objects and effects outside the component *)
  sourceNodes : list AudioBufferSourceNode;
  sessionPromises : list SessionPromise;
  alerts : list string;
  console : list string }.

(** The component as first rendered: the initial values of [useState] and
    [useRef]. *)
Definition initial : App :=
  mkApp DISCONNECTED false false false None None None None None None None
    0%float [] [] [] [] [].

Definition set_status (v : ConnectionStatus) (st : App) : App :=
  mkApp v (hasPermission st) (isUserSpeaking st) (isAiSpeaking st)
    (inputAudioContextRef st) (outputAudioContextRef st) (inputSourceRef st)
    (processorRef st) (outputNodeRef st) (sessionPromiseRef st) (streamRef st)
    (nextStartTimeRef st) (sourcesRef st) (sourceNodes st) (sessionPromises st)
    (alerts st) (console st).

Definition set_hasPermission (v : bool) (st : App) : App :=
  mkApp (status st) v (isUserSpeaking st) (isAiSpeaking st) (inputAudioContextRef st)
    (outputAudioContextRef st) (inputSourceRef st) (processorRef st)
    (outputNodeRef st) (sessionPromiseRef st) (streamRef st) (nextStartTimeRef st)
    (sourcesRef st) (sourceNodes st) (sessionPromises st) (alerts st) (console st).

Definition set_isUserSpeaking (v : bool) (st : App) : App :=
  mkApp (status st) (hasPermission st) v (isAiSpeaking st) (inputAudioContextRef st)
    (outputAudioContextRef st) (inputSourceRef st) (processorRef st)
    (outputNodeRef st) (sessionPromiseRef st) (streamRef st) (nextStartTimeRef st)
    (sourcesRef st) (sourceNodes st) (sessionPromises st) (alerts st) (console st).

Definition set_isAiSpeaking (v : bool) (st : App) : App :=
  mkApp (status st) (hasPermission st) (isUserSpeaking st) v (inputAudioContextRef st)
    (outputAudioContextRef st) (inputSourceRef st) (processorRef st)
    (outputNodeRef st) (sessionPromiseRef st) (streamRef st) (nextStartTimeRef st)
    (sourcesRef st) (sourceNodes st) (sessionPromises st) (alerts st) (console st).

Definition set_inputAudioContextRef (v : option AudioContext) (st : App) : App :=
  mkApp (status st) (hasPermission st) (isUserSpeaking st) (isAiSpeaking st) v
    (outputAudioContextRef st) (inputSourceRef st) (processorRef st)
    (outputNodeRef st) (sessionPromiseRef st) (streamRef st) (nextStartTimeRef st)
    (sourcesRef st) (sourceNodes st) (sessionPromises st) (alerts st) (console st).

Definition set_outputAudioContextRef (v : option AudioContext) (st : App) : App :=
  mkApp (status st) (hasPermission st) (isUserSpeaking st) (isAiSpeaking st)
    (inputAudioContextRef st) v (inputSourceRef st) (processorRef st)
    (outputNodeRef st) (sessionPromiseRef st) (streamRef st) (nextStartTimeRef st)
    (sourcesRef st) (sourceNodes st) (sessionPromises st) (alerts st) (console st).

Definition set_inputSourceRef (v : option MediaStreamAudioSourceNode) (st : App) : App :=
  mkApp (status st) (hasPermission st) (isUserSpeaking st) (isAiSpeaking st)
    (inputAudioContextRef st) (outputAudioContextRef st) v (processorRef st)
    (outputNodeRef st) (sessionPromiseRef st) (streamRef st) (nextStartTimeRef st)
    (sourcesRef st) (sourceNodes st) (sessionPromises st) (alerts st) (console st).

Definition set_processorRef (v : option ScriptProcessorNode) (st : App) : App :=
  mkApp (status st) (hasPermission st) (isUserSpeaking st) (isAiSpeaking st)
    (inputAudioContextRef st) (outputAudioContextRef st) (inputSourceRef st) v
    (outputNodeRef st) (sessionPromiseRef st) (streamRef st) (nextStartTimeRef st)
    (sourcesRef st) (sourceNodes st) (sessionPromises st) (alerts st) (console st).

Definition set_outputNodeRef (v : option GainNode) (st : App) : App :=
  mkApp (status st) (hasPermission st) (isUserSpeaking st) (isAiSpeaking st)
    (inputAudioContextRef st) (outputAudioContextRef st) (inputSourceRef st)
    (processorRef st) v (sessionPromiseRef st) (streamRef st) (nextStartTimeRef st)
    (sourcesRef st) (sourceNodes st) (sessionPromises st) (alerts st) (console st).

Definition set_sessionPromiseRef (v : option nat) (st : App) : App :=
  mkApp (status st) (hasPermission st) (isUserSpeaking st) (isAiSpeaking st)
    (inputAudioContextRef st) (outputAudioContextRef st) (inputSourceRef st)
    (processorRef st) (outputNodeRef st) v (streamRef st) (nextStartTimeRef st)
    (sourcesRef st) (sourceNodes st) (sessionPromises st) (alerts st) (console st).

Definition set_streamRef (v : option MediaStream) (st : App) : App :=
  mkApp (status st) (hasPermission st) (isUserSpeaking st) (isAiSpeaking st)
    (inputAudioContextRef st) (outputAudioContextRef st) (inputSourceRef st)
    (processorRef st) (outputNodeRef st) (sessionPromiseRef st) v
    (nextStartTimeRef st) (sourcesRef st) (sourceNodes st) (sessionPromises st)
    (alerts st) (console st).

Definition set_nextStartTimeRef (v : float) (st : App) : App :=
  mkApp (status st) (hasPermission st) (isUserSpeaking st) (isAiSpeaking st)
    (inputAudioContextRef st) (outputAudioContextRef st) (inputSourceRef st)
    (processorRef st) (outputNodeRef st) (sessionPromiseRef st) (streamRef st) v
    (sourcesRef st) (sourceNodes st) (sessionPromises st) (alerts st) (console st).

Definition set_sourcesRef (v : list nat) (st : App) : App :=
  mkApp (status st) (hasPermission st) (isUserSpeaking st) (isAiSpeaking st)
    (inputAudioContextRef st) (outputAudioContextRef st) (inputSourceRef st)
    (processorRef st) (outputNodeRef st) (sessionPromiseRef st) (streamRef st)
    (nextStartTimeRef st) v (sourceNodes st) (sessionPromises st) (alerts st)
    (console st).

Definition set_sourceNodes (v : list AudioBufferSourceNode) (st : App) : App :=
  mkApp (status st) (hasPermission st) (isUserSpeaking st) (isAiSpeaking st)
    (inputAudioContextRef st) (outputAudioContextRef st) (inputSourceRef st)
    (processorRef st) (outputNodeRef st) (sessionPromiseRef st) (streamRef st)
    (nextStartTimeRef st) (sourcesRef st) v (sessionPromises st) (alerts st)
    (console st).

Definition set_sessionPromises (v : list SessionPromise) (st : App) : App :=
  mkApp (status st) (hasPermission st) (isUserSpeaking st) (isAiSpeaking st)
    (inputAudioContextRef st) (outputAudioContextRef st) (inputSourceRef st)
    (processorRef st) (outputNodeRef st) (sessionPromiseRef st) (streamRef st)
    (nextStartTimeRef st) (sourcesRef st) (sourceNodes st) v (alerts st) (console st).

Definition set_alerts (v : list string) (st : App) : App :=
  mkApp (status st) (hasPermission st) (isUserSpeaking st) (isAiSpeaking st)
    (inputAudioContextRef st) (outputAudioContextRef st) (inputSourceRef st)
    (processorRef st) (outputNodeRef st) (sessionPromiseRef st) (streamRef st)
    (nextStartTimeRef st) (sourcesRef st) (sourceNodes st) (sessionPromises st) v
    (console st).

Definition set_console (v : list string) (st : App) : App :=
  mkApp (status st) (hasPermission st) (isUserSpeaking st) (isAiSpeaking st)
    (inputAudioContextRef st) (outputAudioContextRef st) (inputSourceRef st)
    (processorRef st) (outputNodeRef st) (sessionPromiseRef st) (streamRef st)
    (nextStartTimeRef st) (sourcesRef st) (sourceNodes st) (sessionPromises st)
    (alerts st) v.


(** ** Callbacks as state transformers that may throw

    A callback runs on the single event loop: it reads and writes the
    component and either completes or throws; what it wrote before a throw
    stays written. *)

Inductive Exn : Set :=
| InvalidStateError
| Rejected (reason : string).

Inductive Completion (A : Type) : Type :=
| Normal (a : A)
| Throw (e : Exn).

Arguments Normal {A} a.
Arguments Throw {A} e.

Definition M (A : Type) : Type := App -> Completion A * App.

Definition ret {A} (a : A) : M A := fun st => (Normal a, st).

Definition bind {A B} (m : M A) (k : A -> M B) : M B :=
  fun st =>
    match m st with
    | (Normal a, st') => k a st'
    | (Throw e, st') => (Throw e, st')
    end.

Definition throw {A} (e : Exn) : M A := fun st => (Throw e, st).

(** [try { m } catch (e) { h e }]. *)
Definition try_catch {A} (m : M A) (h : Exn -> M A) : M A :=
  fun st =>
    match m st with
    | (Normal a, st') => (Normal a, st')
    | (Throw e, st') => h e st'
    end.

Definition gets {A} (f : App -> A) : M A := fun st => (Normal (f st), st).

Definition modify (f : App -> App) : M unit := fun st => (Normal tt, f st).

(** The outcome of something the environment decides (an awaited promise,
    a helper that may throw). *)
Definition lift {A} (c : Completion A) : M A := fun st => (c, st).

Declare Scope js_scope.
Delimit Scope js_scope with js.
Notation "x <- c1 ;; c2" := (bind c1 (fun x => c2))
  (at level 61, c1 at next level, right associativity) : js_scope.
Notation "c1 ;; c2" := (bind c1 (fun _ => c2))
  (at level 61, right associativity) : js_scope.
Open Scope js_scope.

(** [xs.forEach(f)]: in order; a throw ends the iteration. *)
Fixpoint forEach {A} (f : A -> M unit) (xs : list A) : M unit :=
  match xs with
  | [] => ret tt
  | x :: xs' => f x ;; forEach f xs'
  end.

(** The state a callback leaves behind, and how it completed. *)
Definition exec {A} (m : M A) (st : App) : App := snd (m st).
Definition completion {A} (m : M A) (st : App) : Completion A := fst (m st).

(** *** Stores *)

Fixpoint update_nth {A} (n : nat) (f : A -> A) (l : list A) : list A :=
  match l, n with
  | [], _ => []
  | x :: l', O => f x :: l'
  | x :: l', S n' => x :: update_nth n' f l'
  end.

(** [Set.prototype.add], [delete] on a set of handles kept in insertion
    order. *)
Definition Set_add (x : nat) (s : list nat) : list nat :=
  if existsb (Nat.eqb x) s then s else s ++ [x].

Definition Set_delete (x : nat) (s : list nat) : list nat :=
  filter (fun y => negb (Nat.eqb x y)) s.

(** *** Browser operations *)

Definition setStatus (v : ConnectionStatus) : M unit := modify (set_status v).
Definition setHasPermission (v : bool) : M unit := modify (set_hasPermission v).
Definition setIsUserSpeaking (v : bool) : M unit := modify (set_isUserSpeaking v).
Definition setIsAiSpeaking (v : bool) : M unit := modify (set_isAiSpeaking v).

Definition console_log (msg : string) : M unit :=
  modify (fun st => set_console (console st ++ [msg]) st).

Definition alert (msg : string) : M unit :=
  modify (fun st => set_alerts (alerts st ++ [msg]) st).

(** [ctx.createBufferSource()]: a fresh handle, not connected, not started. *)
Definition createBufferSource : M nat :=
  fun st =>
    (Normal (List.length (sourceNodes st)),
     set_sourceNodes (sourceNodes st ++ [mkSource None false None false]) st).

Definition update_source (source : nat) (f : AudioBufferSourceNode -> AudioBufferSourceNode)
  : M unit :=
  modify (fun st => set_sourceNodes (update_nth source f (sourceNodes st)) st).

(** [source.start(when)]: [InvalidStateError] when called a second time.
    (The range check the browser makes on [when] is not part of the model:
    the requested time is recorded as given.) *)
Definition source_start (source : nat) (when : float) : M unit :=
  nodes <- gets sourceNodes ;;
  match nth_error nodes source with
  | Some n =>
      match started n with
      | None =>
          update_source source
            (fun n => mkSource (buffer n) (connected n) (Some when) (stopped n))
      | Some _ => throw InvalidStateError
      end
  | None => throw InvalidStateError
  end.

(** [source.stop()]: [InvalidStateError] when [start] was never called. *)
Definition source_stop (source : nat) : M unit :=
  nodes <- gets sourceNodes ;;
  match nth_error nodes source with
  | Some n =>
      match started n with
      | Some _ =>
          update_source source
            (fun n => mkSource (buffer n) (connected n) (started n) true)
      | None => throw InvalidStateError
      end
  | None => throw InvalidStateError
  end.

(** [promise.then(session => r(session))] on the session promise [p]. *)
Definition promise_then (p : nat) (r : Reaction) : M unit :=
  modify (fun st =>
            set_sessionPromises (update_nth p (fun rs => rs ++ [r]) (sessionPromises st)) st).

(** [ctx.close()] guarded by [ctx?.state !== 'closed'], on a ref that may
    be null. *)
Definition close_unless_closed (ref : option AudioContext) : option AudioContext :=
  match ref with
  | Some ctx =>
      match state ctx with
      | closed => Some ctx
      | _ => Some (mkAudioContext (sampleRate ctx) closed (currentTime ctx))
      end
  | None => None
  end.

(** ** [cleanup] (App.tsx, lines 77-112) *)
Definition cleanup : M unit :=
  sessionPromise <- gets sessionPromiseRef ;;
  match sessionPromise with
  | Some p =>
      promise_then p SessionClose ;;
      modify (set_sessionPromiseRef None)
  | None => ret tt
  end ;;
  (* Stop all scheduled audio *)
  sources <- gets sourcesRef ;;
  forEach (fun source => try_catch (source_stop source) (fun _ => ret tt)) sources ;;
  modify (set_sourcesRef []) ;;
  (* Disconnect input *)
  modify (fun st =>
            match processorRef st with
            | Some _ => set_processorRef (Some (mkProcessor false false)) st
            | None => st
            end) ;;
  modify (fun st =>
            match inputSourceRef st with
            | Some _ => set_inputSourceRef (Some (mkInputSource false)) st
            | None => st
            end) ;;
  modify (fun st =>
            match streamRef st with
            | Some tracks => set_streamRef (Some (map (fun _ => ended) tracks)) st
            | None => st
            end) ;;
  (* Close contexts *)
  modify (fun st => set_inputAudioContextRef (close_unless_closed (inputAudioContextRef st)) st) ;;
  modify (fun st => set_outputAudioContextRef (close_unless_closed (outputAudioContextRef st)) st) ;;
  setStatus DISCONNECTED ;;
  setIsUserSpeaking false ;;
  setIsAiSpeaking false.

(** ** The audio helpers imported from [./utils/audioUtils]

    The component calls three helpers whose file is not part of the
    sources at hand; the callbacks are embedded over their interface.
    [decode] and [decodeAudioData] may throw (the latter is awaited), so
    they return a completion. *)
Class AudioUtils : Type := {
  createPcmBlob : list float -> Blob;
  decode : string -> Completion (list Byte.byte);
  decodeAudioData :
    list Byte.byte -> AudioContext -> float -> nat -> Completion AudioBuffer }.

(** What the environment decides during [connect]: the credential found in
    the process environment and the outcome of the awaited
    [navigator.mediaDevices.getUserMedia({ audio: true })]. *)
Record Environment : Set := mkEnvironment {
  process_env_API_KEY : option string;
  getUserMedia : Completion MediaStream }.

(** [const API_KEY = process.env.API_KEY || ''] (line 16). *)
Definition API_KEY (env : Environment) : string :=
  match process_env_API_KEY env with
  | Some k => k
  | None => EmptyString
  end.

(** JavaScript truthiness of a string that may be undefined. *)
Definition truthy (s : option string) : option string :=
  match s with
  | Some EmptyString => None
  | Some s' => Some s'
  | None => None
  end.

(** [message.serverContent?.modelTurn?.parts?.[0]?.inlineData?.data]
    (line 182). *)
Definition base64Audio_of (message : LiveServerMessage) : option string :=
  match serverContent message with
  | Some sc =>
      match modelTurn sc with
      | Some turn =>
          match parts turn with
          | Some ps =>
              match nth_error ps 0 with
              | Some part =>
                  match inlineData part with
                  | Some blob => data blob
                  | None => None
                  end
              | None => None
              end
          | None => None
          end
      | None => None
      end
  | None => None
  end.

(** [message.serverContent?.interrupted], as a condition (line 215). *)
Definition interrupted_of (message : LiveServerMessage) : bool :=
  match serverContent message with
  | Some sc =>
      match interrupted sc with
      | Some b => b
      | None => false
      end
  | None => false
  end.

Section Callbacks.

Context `{AudioUtils}.

(** *** The permission probe of the mount effect (lines 60-69) *)
Definition mount (granted : bool) : M unit := setHasPermission granted.

(** *** [onaudioprocess] (lines 159-175): [inputData] is channel 0 of
    the captured frame *)

(** [let sum = 0; for (...) sum += inputData[i] * inputData[i]]. *)
Definition sum_of_squares (inputData : list float) : float :=
  fold_left (fun sum x => (sum + x * x)%float) inputData 0%float.

(** [Math.sqrt(sum / inputData.length)]. *)
Definition rms_of (inputData : list float) : float :=
  PrimFloat.sqrt (sum_of_squares inputData / Number.of_nat (List.length inputData)).

Definition onaudioprocess (inputData : list float) : M unit :=
  let rms := rms_of inputData in
  setIsUserSpeaking (0.02 <? rms)%float ;;
  let pcmBlob := createPcmBlob inputData in
  sessionPromise <- gets sessionPromiseRef ;;
  match sessionPromise with
  | Some p => promise_then p (SendRealtimeInput pcmBlob)
  | None => ret tt
  end.

(** *** [onopen] (lines 148-179) *)
Definition onopen : M unit :=
  console_log "Session opened" ;;
  setStatus CONNECTED ;;
  inputCtx <- gets inputAudioContextRef ;;
  stream <- gets streamRef ;;
  match inputCtx, stream with
  | Some _, Some _ =>
      (* createMediaStreamSource, createScriptProcessor(4096, 1, 1) *)
      modify (set_inputSourceRef (Some (mkInputSource false))) ;;
      modify (set_processorRef (Some (mkProcessor false false))) ;;
      (* processorRef.current.onaudioprocess = ... *)
      modify (set_processorRef (Some (mkProcessor false true))) ;;
      (* inputSourceRef.current.connect(processorRef.current) *)
      modify (set_inputSourceRef (Some (mkInputSource true))) ;;
      (* processorRef.current.connect(inputCtx.destination) *)
      modify (set_processorRef (Some (mkProcessor true true)))
  | _, _ => ret tt
  end.

(** *** The ['ended'] listener of a playback handle (lines 202-207) *)
Definition onended (source : nat) : M unit :=
  modify (fun st => set_sourcesRef (Set_delete source (sourcesRef st)) st) ;;
  sources <- gets sourcesRef ;;
  match sources with
  | [] => setIsAiSpeaking false
  | _ :: _ => ret tt
  end.

(** *** [onmessage] (lines 180-222)

    The handler is [async] and awaits the decode (line 191): it hands
    control back there, and its continuation runs later. [onmessage]
    below is the handler when nothing else runs in between, the two
    halves [schedule_decode] and [schedule_start] in sequence; the two
    halves as separate steps, with other callbacks between them, are
    [onmessage_begin] and [onmessage_resume] further down. A rejected
    decode ends the handler with what was written so far. *)

(** The audio branch up to the awaited decode (lines 185-196). *)
Definition schedule_decode (base64Audio : string) (ctx : AudioContext)
  : M AudioBuffer :=
  setIsAiSpeaking true ;;
  (* Sync timing *)
  modify (fun st =>
            set_nextStartTimeRef
              (Number.Math_max (nextStartTimeRef st) (currentTime ctx)) st) ;;
  bytes <- lift (decode base64Audio) ;;
  lift (decodeAudioData bytes ctx 24000%float 1).

(** The audio branch after the decode (lines 198-211). *)
Definition schedule_start (audioBuffer : AudioBuffer) : M unit :=
  source <- createBufferSource ;;
  update_source source
    (fun n => mkSource (Some audioBuffer) (connected n) (started n) (stopped n)) ;;
  update_source source
    (fun n => mkSource (buffer n) true (started n) (stopped n)) ;;
  nextStartTime <- gets nextStartTimeRef ;;
  source_start source nextStartTime ;;
  modify (fun st =>
            set_nextStartTimeRef (nextStartTimeRef st + duration audioBuffer)%float st) ;;
  modify (fun st => set_sourcesRef (Set_add source (sourcesRef st)) st).

(** The interruption branch (lines 216-220). *)
Definition interrupt : M unit :=
  console_log "Interrupted" ;;
  sources <- gets sourcesRef ;;
  forEach source_stop sources ;;
  modify (set_sourcesRef []) ;;
  modify (set_nextStartTimeRef 0%float) ;;
  setIsAiSpeaking false.

Definition onmessage (message : LiveServerMessage) : M unit :=
  (* Handle Audio Output *)
  let base64Audio := base64Audio_of message in
  outputCtx <- gets outputAudioContextRef ;;
  outputNode <- gets outputNodeRef ;;
  match truthy base64Audio, outputCtx, outputNode with
  | Some b64, Some ctx, Some _ =>
      audioBuffer <- schedule_decode b64 ctx ;;
      schedule_start audioBuffer
  | _, _, _ => ret tt
  end ;;
  (* Handle interruption *)
  if interrupted_of message then interrupt else ret tt.

(** *** [onclose] (lines 223-226) *)
Definition onclose : M unit :=
  console_log "Session closed" ;;
  setStatus DISCONNECTED.

(** *** [onerror] (lines 227-231) *)
Definition onerror : M unit :=
  console_log "Session error" ;;
  setStatus ERROR ;;
  cleanup.

(** *** [connect] (lines 114-240)

    The four callbacks above are registered with the service here; the
    service invokes them later. *)
Definition connect (env : Environment) : M unit :=
  match API_KEY env with
  | EmptyString =>
      alert "API Key is missing in environment variables"
  | String _ _ =>
      try_catch
        (setStatus CONNECTING ;;
         (* 1. Initialize Audio Contexts *)
         modify (set_inputAudioContextRef
                   (Some (mkAudioContext 16000%float running 0%float))) ;;
         modify (set_outputAudioContextRef
                   (Some (mkAudioContext 24000%float running 0%float))) ;;
         modify (set_outputNodeRef (Some (mkGain false))) ;;
         modify (set_outputNodeRef (Some (mkGain true))) ;;
         (* 2. Get User Media *)
         stream <- lift (getUserMedia env) ;;
         modify (set_streamRef (Some stream)) ;;
         (* 3, 4. Connect to Live API *)
         modify (fun st =>
                   set_sessionPromiseRef (Some (List.length (sessionPromises st)))
                     (set_sessionPromises (sessionPromises st ++ [[]]) st)))
        (fun e =>
           console_log (match e with
                        | InvalidStateError => "InvalidStateError"
                        | Rejected reason => reason
                        end) ;;
           setStatus ERROR ;;
           cleanup)
  end.

(** The audio device advances the clock of the output context between
    callbacks. *)
Definition advance_clock (t : float) : M unit :=
  modify (fun st =>
            match outputAudioContextRef st with
            | Some ctx =>
                set_outputAudioContextRef
                  (Some (mkAudioContext (sampleRate ctx) (state ctx) t)) st
            | None => st
            end).

End Callbacks.

(** ** The sample codec

    The helper file [./utils/audioUtils] ([createPcmBlob], [decode],
    [decodeAudioData]) is not among the sources at hand. The three
    operations of the spec's section 4.1, [encode], [decode] and
    [decodePlayable], are written here from its words: samples are clamped
    to [-1,1], scaled by 32767 (positive) or 32768 (negative) and stored
    as 16-bit signed little-endian integers, the bytes are base64-encoded
    and tagged as 16 kHz PCM; decoding inverts the base64 transform, reads
    the bytes as 16-bit signed little-endian samples and divides each by
    32768. *)
Module Codec.

Open Scope float_scope.

Definition byte_to_Z (b : Byte.byte) : Z := Z.of_N (Byte.to_N b).

Definition byte_of_Z (z : Z) : Byte.byte :=
  match Byte.of_N (Z.to_N (z mod 256)) with
  | Some b => b
  | None => Byte.x00
  end.

(** *** Samples to 16-bit integers and back *)

(** Modelled from the spec: the clamping step of [createPcmBlob] (missing
    file [utils/audioUtils]), "clamping to [-1,1]". *)
Definition clamp (x : float) : float :=
  Number.Math_max (-1) (Number.Math_min 1 x).

(** Modelled from the spec: the conversion of a scaled sample to "a 16-bit
    signed integer" in [createPcmBlob] (missing file [utils/audioUtils]).
    The spec does not say how the fraction is dropped; the model takes
    what storing a number in a 16-bit signed typed array does: truncation
    toward zero, then wrap-around modulo 2^16. *)
Definition ToInt16 (x : float) : Z :=
  ((Number.trunc x + 32768) mod 65536 - 32768)%Z.

(** Modelled from the spec: one sample through [createPcmBlob] (missing
    file [utils/audioUtils]), "clamping to [-1,1] and scaling by 32767
    (positive) or 32768 (negative)". *)
Definition sample_to_int16 (x : float) : Z :=
  let s := clamp x in
  ToInt16 (if s <? 0 then s * 32768 else s * 32767).

(** Modelled from the spec: one sample through [decodeAudioData] (missing
    file [utils/audioUtils]), "converts each back to a float in [-1,1] by
    dividing by 32768". *)
Definition int16_to_sample (z : Z) : float := Number.of_Z z / 32768.

(** *** 16-bit integers to little-endian bytes and back *)

(** Modelled from the spec: the byte view of the 16-bit samples in
    [createPcmBlob] (missing file [utils/audioUtils]), "16-bit signed
    little-endian", in two's complement. *)
Definition int16_to_bytes (z : Z) : list Byte.byte :=
  let u := (z mod 65536)%Z in
  [byte_of_Z u; byte_of_Z (u / 256)].

(** Modelled from the spec: the 16-bit view of the bytes in
    [decodeAudioData] (missing file [utils/audioUtils]), "reinterprets the
    byte buffer as 16-bit signed little-endian samples". *)
Definition int16_of_bytes (lo hi : Byte.byte) : Z :=
  let u := (byte_to_Z lo + 256 * byte_to_Z hi)%Z in
  if (u <? 32768)%Z then u else (u - 65536)%Z.

(** Modelled from the spec: the same view on a whole buffer; a buffer of
    odd length has no such view (the spec asks for a hard failure). *)
Fixpoint bytes_to_int16s (bs : list Byte.byte) : option (list Z) :=
  match bs with
  | [] => Some []
  | lo :: hi :: rest =>
      match bytes_to_int16s rest with
      | Some zs => Some (int16_of_bytes lo hi :: zs)
      | None => None
      end
  | [_] => None
  end.

(** *** Base64 (the standard alphabet, [=] padding) *)

(** Modelled from the spec: the alphabet of the "base64" transform of
    [createPcmBlob] and [decode] (missing file [utils/audioUtils]). *)
Definition sextet_to_ascii (n : Z) : ascii :=
  if (n <? 26)%Z then ascii_of_N (Z.to_N (65 + n))
  else if (n <? 52)%Z then ascii_of_N (Z.to_N (71 + n))
  else if (n <? 62)%Z then ascii_of_N (Z.to_N (n - 4))
  else if (n =? 62)%Z then "+"%char
  else "/"%char.

Definition ascii_to_sextet (c : ascii) : option Z :=
  let n := Z.of_N (N_of_ascii c) in
  if ((65 <=? n) && (n <=? 90))%Z then Some (n - 65)%Z
  else if ((97 <=? n) && (n <=? 122))%Z then Some (n - 71)%Z
  else if ((48 <=? n) && (n <=? 57))%Z then Some (n + 4)%Z
  else if (n =? 43)%Z then Some 62%Z
  else if (n =? 47)%Z then Some 63%Z
  else None.

Definition pad : ascii := "="%char.

(** Modelled from the spec: "base64-encodes the result", three bytes to
    four characters, the last group padded. *)
Fixpoint base64_encode (bs : list Byte.byte) : string :=
  match bs with
  | [] => EmptyString
  | [b0] =>
      let x := byte_to_Z b0 in
      String (sextet_to_ascii (x / 4))
        (String (sextet_to_ascii ((x mod 4) * 16))
           (String pad (String pad EmptyString)))
  | [b0; b1] =>
      let x := byte_to_Z b0 in
      let y := byte_to_Z b1 in
      String (sextet_to_ascii (x / 4))
        (String (sextet_to_ascii ((x mod 4) * 16 + y / 16))
           (String (sextet_to_ascii ((y mod 16) * 4))
              (String pad EmptyString)))
  | b0 :: b1 :: b2 :: rest =>
      let x := byte_to_Z b0 in
      let y := byte_to_Z b1 in
      let z := byte_to_Z b2 in
      String (sextet_to_ascii (x / 4))
        (String (sextet_to_ascii ((x mod 4) * 16 + y / 16))
           (String (sextet_to_ascii ((y mod 16) * 4 + z / 64))
              (String (sextet_to_ascii (z mod 64)) (base64_encode rest))))
  end.

(** One, two or three bytes from two, three or four sextets. *)
Definition bytes_of_2 (s0 s1 : Z) : list Byte.byte :=
  [byte_of_Z (s0 * 4 + s1 / 16)].

Definition bytes_of_3 (s0 s1 s2 : Z) : list Byte.byte :=
  [byte_of_Z (s0 * 4 + s1 / 16); byte_of_Z ((s1 mod 16) * 16 + s2 / 4)].

Definition bytes_of_4 (s0 s1 s2 s3 : Z) : list Byte.byte :=
  [byte_of_Z (s0 * 4 + s1 / 16);
   byte_of_Z ((s1 mod 16) * 16 + s2 / 4);
   byte_of_Z ((s2 mod 4) * 64 + s3)].

(** Modelled from the spec: the "inverse base64 transform" of [decode]
    (missing file [utils/audioUtils]); [None] on a string that is not
    base64. The padding of the last group may be left out. *)
Fixpoint base64_decode (s : string) : option (list Byte.byte) :=
  match s with
  | EmptyString => Some []
  | String c0 (String c1 tail) =>
      match ascii_to_sextet c0, ascii_to_sextet c1 with
      | Some s0, Some s1 =>
          match tail with
          | EmptyString => Some (bytes_of_2 s0 s1)
          | String c2 tail2 =>
              if Ascii.eqb c2 pad then
                match tail2 with
                | String c3 EmptyString =>
                    if Ascii.eqb c3 pad then Some (bytes_of_2 s0 s1) else None
                | _ => None
                end
              else
                match ascii_to_sextet c2 with
                | Some s2 =>
                    match tail2 with
                    | EmptyString => Some (bytes_of_3 s0 s1 s2)
                    | String c3 rest =>
                        if Ascii.eqb c3 pad then
                          match rest with
                          | EmptyString => Some (bytes_of_3 s0 s1 s2)
                          | String _ _ => None
                          end
                        else
                          match ascii_to_sextet c3, base64_decode rest with
                          | Some s3, Some bs => Some (bytes_of_4 s0 s1 s2 s3 ++ bs)
                          | _, _ => None
                          end
                    end
                | None => None
                end
          end
      | _, _ => None
      end
  | String _ EmptyString => None
  end.

(** *** The three operations of the spec *)

(** Modelled from the spec: [createPcmBlob] of the missing file
    [utils/audioUtils], the spec's [encode(samples) -> wire_blob]. *)
Definition encode (samples : list float) : Blob :=
  mkBlob
    (Some (base64_encode (flat_map int16_to_bytes (map sample_to_int16 samples))))
    (Some "audio/pcm;rate=16000"%string).

(** Modelled from the spec: [decode] of the missing file
    [utils/audioUtils], the spec's [decode(base64_string) -> byte_buffer];
    a string that is not base64 makes it throw. *)
Definition decode (s : string) : Completion (list Byte.byte) :=
  match base64_decode s with
  | Some bs => Normal bs
  | None => Throw (Rejected "InvalidCharacterError")
  end.

(** Modelled from the spec: [decodeAudioData] of the missing file
    [utils/audioUtils], the spec's
    [decodePlayable(byte_buffer, target_context, sample_rate, channel_count)].
    Channel [c] of the buffer holds the samples at positions
    [i * channel_count + c]; the duration is the number of frames over the
    sample rate; a byte buffer of odd length is refused. *)
Definition decodePlayable (bytes : list Byte.byte) (ctx : AudioContext)
  (sample_rate : float) (channel_count : nat) : Completion AudioBuffer :=
  match channel_count, bytes_to_int16s bytes with
  | O, _ => Throw (Rejected "CodecError: no channel")
  | _, None => Throw (Rejected "CodecError: truncated frame")
  | S _, Some ints =>
      let frameCount := Nat.div (List.length ints) channel_count in
      Normal
        (mkAudioBuffer
           (map (fun c =>
                   map (fun i => int16_to_sample (nth (i * channel_count + c) ints 0%Z))
                     (seq 0 frameCount))
              (seq 0 channel_count))
           (Number.of_nat frameCount / sample_rate))
  end.

(** The 16-bit quantization grid of [-1,1]: the samples [k / 32768]. *)
Definition grid_sample (k : Z) : float := Number.of_Z k / 32768.

Definition on_grid (x : float) : Prop :=
  exists k : Z, (-32768 <= k <= 32768)%Z /\ x = grid_sample k.

(** One quantization step. *)
Definition quantum : float := 1 / 32768.

(** [y] reproduces [x] within one quantization step. *)
Definition within_quantum (x y : float) : bool := abs (x - y) <=? quantum.

End Codec.

(** The helpers of [./utils/audioUtils] as the spec describes them. *)
#[export] Instance spec_AudioUtils : AudioUtils := {|
  createPcmBlob := Codec.encode;
  decode := Codec.decode;
  decodeAudioData := Codec.decodePlayable |}.

(** ** What the claims talk about *)

(** The service and the browser drive the component through events. No
    order is imposed on them. Each event is a callback that runs to its
    end before the next one; for [Message] this means that the handler is
    resumed from its await before anything else runs (the runs in which
    other callbacks come in between are those of [Step] further down). *)
Inductive Event : Type :=
| Mount (granted : bool)
| Connect (env : Environment)
| Open
| AudioProcess (inputData : list float)
| Clock (t : float)
| Message (message : LiveServerMessage)
| Ended (source : nat)
| Close
| Error
| Disconnect.

Section Traces.

Context `{AudioUtils}.

Definition handle (ev : Event) : M unit :=
  match ev with
  | Mount granted => mount granted
  | Connect env => connect env
  | Open => onopen
  | AudioProcess inputData => onaudioprocess inputData
  | Clock t => advance_clock t
  | Message message => onmessage message
  | Ended source => onended source
  | Close => onclose
  | Error => onerror
  | Disconnect => cleanup
  end.

(** The component after a trace of events; a callback that throws leaves
    what it wrote and the event loop goes on. *)
Definition run (trace : list Event) (st : App) : App :=
  fold_left (fun st ev => exec (handle ev) st) trace st.

(** Inbound audio chunks delivered one after the other, each at a reading
    [t] of the output clock. *)
Fixpoint deliver (chunks : list (float * LiveServerMessage)) : M unit :=
  match chunks with
  | [] => ret tt
  | (t, message) :: rest =>
      advance_clock t ;; onmessage message ;; deliver rest
  end.

(** What the audio branch of [onmessage] obtains from the decoder, when
    the branch is taken. *)
Definition decoded (message : LiveServerMessage) (st : App)
  : option (Completion AudioBuffer) :=
  match truthy (base64Audio_of message), outputAudioContextRef st, outputNodeRef st with
  | Some b64, Some ctx, Some _ =>
      Some match decode b64 with
           | Normal bytes => decodeAudioData bytes ctx 24000%float 1
           | Throw e => Throw e
           end
  | _, _, _ => None
  end.

(** The message is an audio chunk for the component in state [st]: it
    carries inline audio, no interruption flag, and the decoder returns a
    buffer of finite duration. *)
Definition audio_chunk (message : LiveServerMessage) (st : App) (buf : AudioBuffer)
  : Prop :=
  decoded message st = Some (Normal buf)
  /\ interrupted_of message = false
  /\ is_finite (duration buf) = true.

End Traces.

(** The root mean square of a frame, written independently of the loop
    of the capture callback: the square root of the mean of the squares,
    the mean being the total in frame order divided by the number of
    samples. *)
Definition squares (samples : list float) : list float :=
  map (fun x => (x * x)%float) samples.

Definition total (xs : list float) : float :=
  fold_left PrimFloat.add xs 0%float.

Definition mean (xs : list float) : float :=
  (total xs / Number.of_nat (List.length xs))%float.

Definition root_mean_square (samples : list float) : float :=
  PrimFloat.sqrt (mean (squares samples)).

(** Every handle of the active-source set exists and was started. *)
Definition handle_started (nodes : list AudioBufferSourceNode) (source : nat) : bool :=
  match nth_error nodes source with
  | Some n => match started n with Some _ => true | None => false end
  | None => false
  end.

Definition sources_started (st : App) : bool :=
  forallb (handle_started (sourceNodes st)) (sourcesRef st).

(** The handle exists and [stop()] was called on it. *)
Definition handle_stopped (nodes : list AudioBufferSourceNode) (source : nat) : bool :=
  match nth_error nodes source with
  | Some n => stopped n
  | None => false
  end.

(** The playback handles [nodes], created for clock readings [clocks] in
    that order, are scheduled one after the other: each starts no earlier
    than [prev_end], the end (start plus duration) of the one before it,
    and no earlier than its clock reading. *)
Fixpoint back_to_back (prev_end : float) (clocks : list float)
  (nodes : list AudioBufferSourceNode) : Prop :=
  match clocks, nodes with
  | [], [] => True
  | t :: clocks', n :: nodes' =>
      exists s b,
        started n = Some s /\ buffer n = Some b
        /\ (prev_end <=? s)%float = true
        /\ (t <=? s)%float = true
        /\ back_to_back (s + duration b)%float clocks' nodes'
  | _, _ => False
  end.

(** The state [cleanup] leaves, as a function of the state it starts in. *)
Definition stop_if_started (nodes : list AudioBufferSourceNode) (source : nat)
  : list AudioBufferSourceNode :=
  update_nth source
    (fun n => match started n with
              | Some _ => mkSource (buffer n) (connected n) (started n) true
              | None => n
              end) nodes.

Definition released (st : App) : App :=
  mkApp DISCONNECTED (hasPermission st) false false
    (close_unless_closed (inputAudioContextRef st))
    (close_unless_closed (outputAudioContextRef st))
    (option_map (fun _ => mkInputSource false) (inputSourceRef st))
    (option_map (fun _ => mkProcessor false false) (processorRef st))
    (outputNodeRef st)
    None
    (option_map (map (fun _ => ended)) (streamRef st))
    (nextStartTimeRef st)
    []
    (fold_left stop_if_started (sourcesRef st) (sourceNodes st))
    (match sessionPromiseRef st with
     | Some p => update_nth p (fun rs => rs ++ [SessionClose]) (sessionPromises st)
     | None => sessionPromises st
     end)
    (alerts st)
    (console st).

(** The reading of the output clock ([ctx.currentTime], line 189). *)
Definition clock_of (st : App) : float :=
  match outputAudioContextRef st with
  | Some ctx => currentTime ctx
  | None => 0%float
  end.

(** The state the audio branch of [onmessage] leaves when the decoder
    returns [buf]: one more playback handle, started at the larger of
    [nextStartTimeRef] and the clock, and [nextStartTimeRef] advanced by the
    buffer's duration. *)
Definition scheduled (st : App) (buf : AudioBuffer) : App :=
  let start := Number.Math_max (nextStartTimeRef st) (clock_of st) in
  set_sourcesRef (Set_add (List.length (sourceNodes st)) (sourcesRef st))
    (set_nextStartTimeRef (start + duration buf)%float
       (set_sourceNodes (sourceNodes st ++ [mkSource (Some buf) true (Some start) false])
          (set_isAiSpeaking true st))).

(** The state the interruption branch leaves when every [stop()] succeeds. *)
Definition interrupted_state (st : App) : App :=
  set_isAiSpeaking false
    (set_nextStartTimeRef 0%float
       (set_sourcesRef []
          (set_sourceNodes (fold_left stop_if_started (sourcesRef st) (sourceNodes st))
             (set_console (console st ++ ["Interrupted"%string]) st)))).

(** A bounded universal quantifier that computes: [p] holds on the
    [2 ^ bits] integers from [lo] on. *)
Fixpoint forall_range (bits : nat) (lo : Z) (p : Z -> bool) : bool :=
  match bits with
  | O => p lo
  | S b => forall_range b lo p && forall_range b (lo + 2 ^ Z.of_nat b)%Z p
  end.

(** What the round trip of one grid sample must satisfy: the stored
    integer fits 16 bits and the reconstructed sample is within one
    quantization step of the original. *)
Definition sample_round_trip (x : float) : bool :=
  let q := Codec.sample_to_int16 x in
  (-32768 <=? q)%Z && (q <=? 32767)%Z
  && Codec.within_quantum x (Codec.int16_to_sample q).

Definition grid_round_trip (k : Z) : bool :=
  sample_round_trip (Codec.grid_sample k).

(** A sextet survives the alphabet and is never the padding character. *)
Definition sextet_round_trip (n : Z) : bool :=
  match Codec.ascii_to_sextet (Codec.sextet_to_ascii n) with
  | Some m => (m =? n)%Z
  | None => false
  end
  && negb (Ascii.eqb (Codec.sextet_to_ascii n) Codec.pad).

(** ** Concrete inputs used to exercise the callbacks *)

Definition audio_message (b64 : string) : LiveServerMessage :=
  mkMessage
    (Some (mkServerContent
             (Some (mkContent (Some [mkPart (Some (mkBlob (Some b64) (Some "audio/pcm"%string)))])))
             None)).

Definition interruption_message : LiveServerMessage :=
  mkMessage (Some (mkServerContent None (Some true))).

(** A message that carries neither audio nor an interruption flag (the
    service's turn-complete notice has this shape). *)
Definition empty_message : LiveServerMessage :=
  mkMessage (Some (mkServerContent None None)).

(** An environment with a credential and a microphone of one track. *)
Definition granted_env : Environment :=
  mkEnvironment (Some "key"%string) (Normal [live]).

(** An environment without the credential. *)
Definition keyless_env : Environment :=
  mkEnvironment None (Normal [live]).

(** Four samples, 0.5, -0.5, 1 and -1, as the service would send them. *)
Definition four_samples : string := "/z8AwP9/AIA=".

(** The component after the user granted the microphone, started a
    session, the service opened it and delivered one audio chunk at clock
    reading 0.25. *)
Definition playing : App :=
  Eval vm_compute in
    run [Mount true; Connect granted_env; Open; Clock 0.25%float;
         Message (audio_message four_samples)] initial.

(** The component once the session is open, before any audio arrived. *)
Definition session_open : App :=
  Eval vm_compute in run [Mount true; Connect granted_env; Open] initial.

(** The buffer the decoder returns for [four_samples]. *)
Definition four_samples_buffer : AudioBuffer :=
  mkAudioBuffer
    [[0.499969482421875; -0.5; 0.999969482421875; -1]%float]
    (4 / 24000)%float.

(** Three chunks: the second arrives before the first has finished
    playing, the third long after the second has. *)
Definition three_chunks : list (float * LiveServerMessage) :=
  [(0.25%float, audio_message four_samples);
   (0.2501%float, audio_message four_samples);
   (5%float, audio_message four_samples)].

(** A chunk of [n] silent samples as the service would send it: at 24 kHz
    it lasts [n / 24000] seconds. *)
Definition silence_message (n : nat) : LiveServerMessage :=
  audio_message (Codec.base64_encode (repeat Byte.x00 (2 * n))).

(** A captured frame of 4096 samples, all equal to [x]. *)
Definition constant_frame (x : float) : list float := repeat x 4096.

(** What a scenario observes of the playback scheduler: the start time and
    the duration of every handle, [nextStartTimeRef], the active-source
    set and the examiner-speaking indicator. *)
Definition playback_summary (st : App)
  : list (option float) * list (option float) * float * list nat * bool :=
  (map started (sourceNodes st),
   map (fun n => option_map duration (buffer n)) (sourceNodes st),
   nextStartTimeRef st, sourcesRef st, isAiSpeaking st).

(** Two frames of four samples with one sample that is not silent: the
    first has a root mean square of exactly 0.05 although it begins with
    silence, the second one of 0.015 although its first sample is above
    the threshold. *)
Definition late_pulse_frame : list float := [0; 0.1; 0; 0]%float.

Definition weak_pulse_frame : list float := [0.03; 0; 0; 0]%float.

(** ** The controls ([src/components/Controls.tsx]) *)

(** What the component renders in its first three slots: the microphone
    button (with its [disabled] attribute; its [onClick] is [onConnect]),
    the spinner, and the End Session button (its [onClick] is
    [onDisconnect]). *)
Inductive Control : Set :=
| MicButton (disabled : bool)
| ConnectingSpinner
| EndSessionButton.

Record ControlsView : Set := mkControlsView {
  controls : list Control;
  hint : option string }.

Definition status_eqb (a b : ConnectionStatus) : bool :=
  match a, b with
  | DISCONNECTED, DISCONNECTED | CONNECTING, CONNECTING
  | CONNECTED, CONNECTED | ERROR, ERROR => true
  | _, _ => false
  end.

(** [Controls] (Controls.tsx, lines 12-62). *)
Definition Controls (status : ConnectionStatus) (hasPermission : bool) : ControlsView :=
  let isConnected := status_eqb status CONNECTED in
  let isConnecting := status_eqb status CONNECTING in
  mkControlsView
    ((if negb isConnected && negb isConnecting
      then [MicButton (negb hasPermission)] else [])
       ++ (if isConnecting then [ConnectingSpinner] else [])
       ++ (if isConnected then [EndSessionButton] else []))
    (if negb hasPermission
     then Some "Please allow microphone access to start."%string
     else if status_eqb status DISCONNECTED
          then Some "Tap microphone to start your IELTS speaking test"%string
          else if status_eqb status CONNECTED
               then Some "Session in progress. Speak naturally."%string
               else None).

Definition is_enabled_mic (c : Control) : bool :=
  match c with MicButton false => true | _ => false end.

Definition is_end_session (c : Control) : bool :=
  match c with EndSessionButton => true | _ => false end.

(** What the user can click. *)
Inductive Click : Set := ClickMic | ClickEndSession.

(** A click reaches its handler only through a rendered control; a
    disabled button fires nothing. [App] passes [connect] as [onConnect]
    and [cleanup] as [onDisconnect] (App.tsx, lines 297-302); [env] is
    what [connect] would find in the environment. *)
Definition click (env : Environment) (c : Click) : M unit :=
  view <- gets (fun st => Controls (status st) (hasPermission st)) ;;
  match c with
  | ClickMic =>
      if existsb is_enabled_mic (controls view) then connect env else ret tt
  | ClickEndSession =>
      if existsb is_end_session (controls view) then cleanup else ret tt
  end.

Definition clicks (actions : list (Environment * Click)) (st : App) : App :=
  fold_left (fun st a => exec (click (fst a) (snd a)) st) actions st.

(** ** The visualizer area of [App] (App.tsx, lines 269-292) *)

(** The [isActive] props of the examiner's and the user's visualizer when
    they are rendered, and the caption under them. *)
Record Screen : Set := mkScreen {
  examinerActive : option bool;
  userActive : option bool;
  caption : string;
  panel : ControlsView }.

Definition render (st : App) : Screen :=
  match status st with
  | CONNECTED =>
      mkScreen (Some (isAiSpeaking st)) (Some (isUserSpeaking st))
        (if isAiSpeaking st then "Examiner is speaking..." else "Listening to you...")
        (Controls (status st) (hasPermission st))
  | _ =>
      mkScreen None None "Ready to start session"
        (Controls (status st) (hasPermission st))
  end.

(** ** Invariants of the playback scheduler *)

(** A handle as the audio branch leaves it: a buffer assigned, connected
    to the output, started. *)
Definition handle_complete (n : AudioBufferSourceNode) : bool :=
  match buffer n, started n with
  | Some _, Some _ => connected n
  | _, _ => false
  end.

Definition scheduler_ok (st : App) : Prop :=
  sources_started st = true
  /\ forallb handle_complete (sourceNodes st) = true
  /\ forallb (fun source => negb (handle_stopped (sourceNodes st) source)) (sourcesRef st)
     = true
  /\ (sourcesRef st <> [] -> isAiSpeaking st = true)
  /\ status st <> ERROR.

(** The start time of every handle that was started is a number. *)
Definition starts_are_numbers (st : App) : bool :=
  forallb (fun n => match started n with
                    | Some s => negb (is_nan s)
                    | None => true
                    end) (sourceNodes st).

Section CleanTraces.

Context `{AudioUtils}.

(** The environment behaves during the trace: every clock reading is a
    number and every buffer the decoder returns has a finite duration. *)
Definition clean_event (ev : Event) (st : App) : Prop :=
  match ev with
  | Clock t => is_nan t = false
  | Message message =>
      match decoded message st with
      | Some (Normal buf) => is_finite (duration buf) = true
      | _ => True
      end
  | _ => True
  end.

Fixpoint clean_run (trace : list Event) (st : App) : Prop :=
  match trace with
  | [] => True
  | ev :: rest => clean_event ev st /\ clean_run rest (exec (handle ev) st)
  end.

End CleanTraces.

(** ** The states [connect] and [onopen] leave *)

(** After step 1 of [connect]: status CONNECTING, both contexts and the
    connected gain node created. *)
Definition contexts_created (st : App) : App :=
  set_outputNodeRef (Some (mkGain true))
    (set_outputAudioContextRef (Some (mkAudioContext 24000%float running 0%float))
       (set_inputAudioContextRef (Some (mkAudioContext 16000%float running 0%float))
          (set_status CONNECTING st))).

(** After steps 2 to 4 of [connect]: the stream kept and a fresh session
    promise held. *)
Definition session_requested (stream : MediaStream) (st : App) : App :=
  let st1 := set_streamRef (Some stream) (contexts_created st) in
  set_sessionPromiseRef (Some (List.length (sessionPromises st1)))
    (set_sessionPromises (sessionPromises st1 ++ [[]]) st1).

(** After [onopen]. *)
Definition opened (st : App) : App :=
  let st1 := set_status CONNECTED (set_console (console st ++ ["Session opened"%string]) st) in
  match inputAudioContextRef st, streamRef st with
  | Some _, Some _ =>
      set_processorRef (Some (mkProcessor true true))
        (set_inputSourceRef (Some (mkInputSource true)) st1)
  | _, _ => st1
  end.

(** ** More concrete inputs *)

(** A message whose audio is not base64 and which also carries the
    interruption flag. *)
Definition garbled_interrupting_message : LiveServerMessage :=
  mkMessage
    (Some (mkServerContent
             (Some (mkContent (Some [mkPart (Some (mkBlob (Some "!"%string) None))])))
             (Some true))).

(** An environment with a credential whose microphone request is
    rejected. *)
Definition refused_env : Environment :=
  mkEnvironment (Some "key"%string) (Throw (Rejected "NotAllowedError")).

(** The numbers the scheduler keeps are numbers: [nextStartTimeRef], the
    reading of the output clock and every start time. *)
Definition numbers_ok (st : App) : Prop :=
  is_nan (nextStartTimeRef st) = false
  /\ is_nan (clock_of st) = false
  /\ starts_are_numbers st = true.

(** The events that lead to [playing], and a longer trace with a second
    chunk, the natural end of the first, and an interruption. *)
Definition playing_trace : list Event :=
  [Mount true; Connect granted_env; Open; Clock 0.25%float;
   Message (audio_message four_samples)].

Definition interrupted_trace : list Event :=
  playing_trace
    ++ [Clock 7%float; Message (audio_message four_samples); Ended 0;
        Message interruption_message].

(** ** [onmessage] suspended at the awaited decode (App.tsx, lines 180-222)

    At [await decodeAudioData(...)] (line 191) the handler hands control
    back to the event loop; whatever callback is due then runs before the
    continuation, which reads [nextStartTimeRef], [outputNodeRef] and
    [sourcesRef] again when it resumes. *)

(** A handler suspended at the await: the message it was called with
    (its interruption flag is tested after the audio branch, line 215)
    and what the promise of the decoder settles with. *)
Record Suspended : Type := mkSuspended {
  awaited_by : LiveServerMessage;
  settles_with : Completion AudioBuffer }.

(** The state the first half of the audio branch leaves (lines 185-189). *)
Definition synced (st : App) : App :=
  set_nextStartTimeRef (Number.Math_max (nextStartTimeRef st) (clock_of st))
    (set_isAiSpeaking true st).

(** The state the second half of the audio branch leaves when the
    decoder returned [buf] (lines 198-211): the handle is started at
    whatever [nextStartTimeRef] holds when the handler resumes. *)
Definition resumed (st : App) (buf : AudioBuffer) : App :=
  set_sourcesRef (Set_add (List.length (sourceNodes st)) (sourcesRef st))
    (set_nextStartTimeRef (nextStartTimeRef st + duration buf)%float
       (set_sourceNodes
          (sourceNodes st ++ [mkSource (Some buf) true (Some (nextStartTimeRef st)) false])
          st)).

Section Suspension.

Context `{AudioUtils}.

(** The handler up to the await. Without inline audio, or without the
    output context or the gain node, no await is reached and the handler
    runs to its end; [decode] is called before the await and throws
    synchronously. *)
Definition onmessage_begin (message : LiveServerMessage) : M (option Suspended) :=
  let base64Audio := base64Audio_of message in
  outputCtx <- gets outputAudioContextRef ;;
  outputNode <- gets outputNodeRef ;;
  match truthy base64Audio, outputCtx, outputNode with
  | Some b64, Some ctx, Some _ =>
      setIsAiSpeaking true ;;
      (* Sync timing *)
      modify (fun st =>
                set_nextStartTimeRef
                  (Number.Math_max (nextStartTimeRef st) (currentTime ctx)) st) ;;
      bytes <- lift (decode b64) ;;
      ret (Some (mkSuspended message (decodeAudioData bytes ctx 24000%float 1)))
  | _, _, _ =>
      (* Handle interruption *)
      (if interrupted_of message then interrupt else ret tt) ;;
      ret None
  end.

(** The continuation: the rest of the audio branch, then the
    interruption branch. A rejected decode ends the handler here. *)
Definition onmessage_resume (s : Suspended) : M unit :=
  audioBuffer <- lift (settles_with s) ;;
  schedule_start audioBuffer ;;
  (* Handle interruption *)
  if interrupted_of (awaited_by s) then interrupt else ret tt.

End Suspension.

(** The component together with the handlers that are suspended. *)
Record Async : Type := mkAsync {
  component : App;
  awaiting : list Suspended }.

Definition initial_async : Async := mkAsync initial [].

(** What the event loop runs next: a callback that runs to its end
    ([Message] being a message whose handler is resumed before anything
    else runs), the first half of [onmessage], or the continuation of
    the [k]-th suspended handler. The continuation creates its handle on
    the context it captured before the await and connects it to the gain
    node [outputNodeRef] holds when it resumes; the store of handles
    does not tell the contexts of two sessions apart, so what is stated
    about continuations is stated for runs that start no session while a
    handler is suspended ([context_kept], [undisturbed]). *)
Inductive Step : Type :=
| Callback (ev : Event)
| Suspend (message : LiveServerMessage)
| Resume (k : nat).

Definition remove_nth {A} (k : nat) (l : list A) : list A :=
  firstn k l ++ skipn (S k) l.

Section AsyncTraces.

Context `{AudioUtils}.

Definition async_step (s : Step) (a : Async) : Async :=
  match s with
  | Callback ev => mkAsync (exec (handle ev) (component a)) (awaiting a)
  | Suspend message =>
      match onmessage_begin message (component a) with
      | (Normal (Some handler), st) => mkAsync st (awaiting a ++ [handler])
      | (_, st) => mkAsync st (awaiting a)
      end
  | Resume k =>
      match nth_error (awaiting a) k with
      | Some handler =>
          mkAsync (exec (onmessage_resume handler) (component a))
            (remove_nth k (awaiting a))
      | None => a
      end
  end.

Definition async_run (trace : list Step) (a : Async) : Async :=
  fold_left (fun a s => async_step s a) trace a.

(** No session is started while a handler is suspended: the
    continuation finds the output context and the gain node it was begun
    with. *)
Definition context_kept_step (s : Step) (a : Async) : bool :=
  match s, awaiting a with
  | Callback (Connect _), _ :: _ => false
  | _, _ => true
  end.

Fixpoint context_kept (trace : list Step) (a : Async) : bool :=
  match trace with
  | [] => true
  | s :: rest => context_kept_step s a && context_kept rest (async_step s a)
  end.

(** The callbacks that can switch the examiner-speaking indicator off or
    replace the output context: a teardown, the start of a session, the
    end of a handle, an interruption. *)
Definition switches_off (ev : Event) : bool :=
  match ev with
  | Connect _ | Ended _ | Error | Disconnect => true
  | Message message => interrupted_of message
  | _ => false
  end.

(** While a handler is suspended, the step does not switch the indicator
    off: no callback of [switches_off], no message with the interruption
    flag is begun, and a handler whose message carries the flag is
    resumed only when it is the only one suspended. *)
Definition undisturbed_step (s : Step) (a : Async) : bool :=
  match awaiting a with
  | [] => true
  | _ :: others =>
      match s with
      | Callback ev => negb (switches_off ev)
      | Suspend message => negb (interrupted_of message)
      | Resume k =>
          match nth_error (awaiting a) k with
          | Some handler =>
              negb (interrupted_of (awaited_by handler))
              || match others with [] => true | _ :: _ => false end
          | None => true
          end
      end
  end.

Fixpoint undisturbed (trace : list Step) (a : Async) : bool :=
  match trace with
  | [] => true
  | s :: rest => undisturbed_step s a && undisturbed rest (async_step s a)
  end.

End AsyncTraces.

(** The part of [scheduler_ok] that does not mention the indicator. *)
Definition handles_ok (st : App) : Prop :=
  sources_started st = true
  /\ forallb handle_complete (sourceNodes st) = true
  /\ forallb (fun source => negb (handle_stopped (sourceNodes st) source)) (sourcesRef st)
     = true
  /\ status st <> ERROR.

(** The indicator is on while a handle is active and while a handler is
    suspended. *)
Definition indicator_ok (a : Async) : Prop :=
  (sourcesRef (component a) <> [] -> isAiSpeaking (component a) = true)
  /\ (awaiting a <> [] -> isAiSpeaking (component a) = true).

(** Two chunks are begun before either is resumed; the clock advances
    between the two continuations. *)
Definition pipelined_trace : list Step :=
  map Callback [Mount true; Connect granted_env; Open; Clock 0.25%float]
    ++ [Suspend (audio_message four_samples); Suspend (audio_message four_samples);
        Resume 0; Callback (Clock 0.3%float); Resume 0].

(** An interruption arrives while a chunk is being decoded. *)
Definition interrupted_decode_trace : list Step :=
  map Callback [Mount true; Connect granted_env; Open; Clock 0.25%float]
    ++ [Suspend (audio_message four_samples); Callback (Message interruption_message);
        Resume 0].

Module NumberFacts.

Import Number.
Open Scope float_scope.

Lemma SFcompare_refl x : sf_is_nan x = false -> SFcompare x x = Some Eq.
Proof.
  destruct x as [s|s| |s m e]; simpl; try discriminate; intros _.
  - reflexivity.
  - now destruct s.
  - rewrite Z.compare_refl, Pos.compare_cont_refl. now destruct s.
Qed.

Lemma SFcompare_antisym x y :
  SFcompare y x = option_map CompOpp (SFcompare x y).
Proof.
  destruct x as [sx|sx| |sx mx ex], y as [sy|sy| |sy my ey]; simpl;
    try reflexivity;
    try (destruct sx; reflexivity); try (destruct sy; reflexivity);
    try (destruct sx, sy; reflexivity).
  assert (Hm : Pos.compare_cont Eq my mx = CompOpp (Pos.compare_cont Eq mx my))
    by (now rewrite Pos.compare_cont_antisym).
  destruct sx, sy; simpl; try reflexivity;
    rewrite (Z.compare_antisym ex ey), Hm;
    destruct (ex ?= ey)%Z; simpl; try reflexivity;
    destruct (Pos.compare_cont Eq mx my); reflexivity.
Qed.

Lemma is_nan_spec x : is_nan x = sf_is_nan (Prim2SF x).
Proof.
  unfold is_nan. rewrite FloatAxioms.eqb_spec. unfold SFeqb.
  destruct (Prim2SF x) as [s|s| |s m e] eqn:E; simpl; try reflexivity.
  - now destruct s.
  - rewrite Z.compare_refl, Pos.compare_cont_refl. now destruct s.
Qed.

Lemma leb_refl x : is_nan x = false -> (x <=? x) = true.
Proof.
  rewrite is_nan_spec, FloatAxioms.leb_spec. intros H. unfold SFleb.
  now rewrite (SFcompare_refl _ H).
Qed.

Lemma ltb_leb x y : (x <? y) = true -> (x <=? y) = true.
Proof.
  rewrite FloatAxioms.ltb_spec, FloatAxioms.leb_spec. unfold SFltb, SFleb.
  destruct (SFcompare _ _) as [[]|]; easy.
Qed.

Lemma not_ltb_leb x y :
  is_nan x = false -> is_nan y = false -> (x <? y) = false -> (y <=? x) = true.
Proof.
  rewrite !is_nan_spec, FloatAxioms.ltb_spec, FloatAxioms.leb_spec. unfold SFltb, SFleb.
  rewrite (SFcompare_antisym (Prim2SF x) (Prim2SF y)).
  destruct (Prim2SF x) as [sx|sx| |sx mx ex], (Prim2SF y) as [sy|sy| |sy my ey];
    simpl; try discriminate; intros _ _;
    repeat match goal with
           | |- context [match ?c with Eq => _ | Lt => _ | Gt => _ end] =>
               destruct c; simpl
           | |- context [if ?b then _ else _] => destruct b; simpl
           end; try reflexivity; try discriminate.
Qed.

Lemma Prim2SF_infinity : Prim2SF infinity = S754_infinity false.
Proof. reflexivity. Qed.

Lemma is_finite_spec x : is_finite x = sf_is_finite (Prim2SF x).
Proof.
  unfold is_finite, is_infinity.
  rewrite is_nan_spec, FloatAxioms.eqb_spec, FloatAxioms.abs_spec, Prim2SF_infinity.
  destruct (Prim2SF x) as [s|s| |s m e]; reflexivity.
Qed.

Lemma is_finite_not_nan x : is_finite x = true -> is_nan x = false.
Proof.
  rewrite is_finite_spec, is_nan_spec. now destruct (Prim2SF x).
Qed.

(** *** Rounding never invents a NaN *)

Section IterPos.
Context {A : Type} (f : A -> A) (P : A -> Prop).
Hypothesis f_keeps : forall x, P x -> P (f x).

Lemma iter_pos_keeps p : forall x, P x -> P (iter_pos f p x).
Proof.
  induction p as [p IH|p IH|]; simpl; intros x Hx; auto.
Qed.
End IterPos.

Lemma shr_1_nonneg mrs : (0 <= shr_m mrs)%Z -> (0 <= shr_m (shr_1 mrs))%Z.
Proof.
  destruct mrs as [m r s]; simpl.
  destruct m as [|[p|p|]|[p|p|]]; simpl; lia.
Qed.

Lemma shr_nonneg mrs e n :
  (0 <= shr_m mrs)%Z -> (0 <= shr_m (fst (shr mrs e n)))%Z.
Proof.
  intros H. destruct n as [|p|p]; simpl; trivial.
  apply (iter_pos_keeps shr_1 (fun r => (0 <= shr_m r)%Z) shr_1_nonneg); trivial.
Qed.

Lemma shr_fexp_nonneg m e l :
  (0 <= m)%Z -> (0 <= shr_m (fst (shr_fexp prec emax m e l)))%Z.
Proof.
  intros H. unfold shr_fexp. apply shr_nonneg.
  destruct l as [|[]]; simpl; trivial.
Qed.

Lemma round_nearest_even_nonneg m l :
  (0 <= m)%Z -> (0 <= round_nearest_even m l)%Z.
Proof.
  intros H. destruct l as [|[]]; simpl; try lia.
  destruct (Z.even m); lia.
Qed.

Lemma binary_round_aux_not_nan sx m e l :
  (0 <= m)%Z -> sf_is_nan (binary_round_aux prec emax sx m e l) = false.
Proof.
  intros H. unfold binary_round_aux.
  pose proof (shr_fexp_nonneg m e l H) as H1.
  destruct (shr_fexp prec emax m e l) as [mrs' e']; simpl in H1.
  pose proof (shr_fexp_nonneg _ e' loc_Exact
                (round_nearest_even_nonneg _ (loc_of_shr_record mrs') H1)) as H2.
  destruct (shr_fexp prec emax _ e' loc_Exact) as [mrs'' e'']; simpl in H2.
  destruct (shr_m mrs'') as [|q|q]; simpl; try reflexivity; try lia.
  now destruct (_ <=? _)%Z.
Qed.

Lemma binary_normalize_not_nan m e sz :
  sf_is_nan (binary_normalize prec emax m e sz) = false.
Proof.
  destruct m as [|p|p]; simpl; try reflexivity;
    unfold binary_round;
    destruct (shl_align _ _ _) as [mz ez];
    apply binary_round_aux_not_nan; lia.
Qed.

Lemma SFadd_not_nan x y :
  sf_is_nan x = false -> sf_is_finite y = true -> sf_is_nan (SF64add x y) = false.
Proof.
  unfold SF64add.
  destruct x as [sx|sx| |sx mx ex], y as [sy|sy| |sy my ey];
    simpl; try discriminate; intros _ _; try reflexivity.
  - now destruct sx, sy.
  - apply binary_normalize_not_nan.
Qed.

(** The sum of a number that is not NaN and a finite number is not NaN
    (it may be an infinity, when the addition overflows). *)
Lemma add_not_nan x y :
  is_nan x = false -> is_finite y = true -> is_nan (x + y) = false.
Proof.
  rewrite !is_nan_spec, is_finite_spec, FloatAxioms.add_spec.
  apply SFadd_not_nan.
Qed.

(** *** [Math.max] is an upper bound of its arguments *)

Lemma Math_max_not_nan a b :
  is_nan a = false -> is_nan b = false -> is_nan (Math_max a b) = false.
Proof.
  intros Ha Hb. unfold Math_max. rewrite Ha, Hb; simpl.
  destruct (a <? b); trivial. destruct (b <? a); trivial.
  now destruct (get_sign a).
Qed.

Lemma Math_max_ge_l a b :
  is_nan a = false -> is_nan b = false -> (a <=? Math_max a b) = true.
Proof.
  intros Ha Hb. unfold Math_max. rewrite Ha, Hb; simpl.
  destruct (a <? b) eqn:Hab; [now apply ltb_leb|].
  destruct (b <? a) eqn:Hba; [now apply leb_refl|].
  destruct (get_sign a); [now apply not_ltb_leb | now apply leb_refl].
Qed.

Lemma Math_max_ge_r a b :
  is_nan a = false -> is_nan b = false -> (b <=? Math_max a b) = true.
Proof.
  intros Ha Hb. unfold Math_max. rewrite Ha, Hb; simpl.
  destruct (a <? b) eqn:Hab; [now apply leb_refl|].
  destruct (b <? a) eqn:Hba; [now apply ltb_leb|].
  destruct (get_sign a); [now apply leb_refl | now apply not_ltb_leb].
Qed.

(** When the first argument is strictly below the second, [Math.max]
    returns the second. *)
Lemma Math_max_lt a b : (a <? b) = true -> Math_max a b = b.
Proof.
  intros H. unfold Math_max.
  assert (Hn : is_nan a = false /\ is_nan b = false).
  { rewrite !is_nan_spec. rewrite FloatAxioms.ltb_spec in H. unfold SFltb in H.
    destruct (Prim2SF a), (Prim2SF b); simpl in *; auto; discriminate. }
  destruct Hn as [-> ->]. simpl. now rewrite H.
Qed.

End NumberFacts.

(** ** Facts about the stores and the callbacks *)

Ltac unfold_m :=
  unfold bind, ret, gets, modify, throw, try_catch, lift, exec, completion,
    setStatus, setHasPermission, setIsUserSpeaking, setIsAiSpeaking,
    console_log, alert, promise_then, update_source in *.

Lemma update_nth_length {A} (f : A -> A) l : forall n,
  List.length (update_nth n f l) = List.length l.
Proof.
  induction l as [|x l IH]; intros [|n]; simpl; auto.
Qed.

Lemma nth_error_update_nth {A} (f : A -> A) l : forall n m,
  nth_error (update_nth n f l) m =
  if Nat.eqb n m then option_map f (nth_error l m) else nth_error l m.
Proof.
  induction l as [|x l IH]; intros [|n] [|m]; simpl; auto.
  - now destruct (Nat.eqb _ _).
Qed.

Lemma update_nth_app_last {A} (f : A -> A) l x :
  update_nth (List.length l) f (l ++ [x]) = l ++ [f x].
Proof.
  induction l as [|y l IH]; simpl; congruence.
Qed.

Lemma nth_error_app_last {A} (l : list A) x :
  nth_error (l ++ [x]) (List.length l) = Some x.
Proof.
  induction l as [|y l IH]; simpl; auto.
Qed.

Lemma update_nth_id {A} (f : A -> A) l n :
  (forall x, nth_error l n = Some x -> f x = x) -> update_nth n f l = l.
Proof.
  revert n. induction l as [|y l IH]; intros [|n] Hf; simpl; auto.
  - now rewrite (Hf y).
  - now rewrite IH.
Qed.

Lemma update_nth_ext_at {A} (f g : A -> A) l n :
  (forall x, nth_error l n = Some x -> f x = g x) ->
  update_nth n f l = update_nth n g l.
Proof.
  revert n. induction l as [|y l IH]; intros [|n] Hf; simpl; auto.
  - now rewrite (Hf y).
  - now rewrite (IH n).
Qed.

(** *** Stopping handles *)

(** Inside [try { source.stop() } catch (e) {}] a handle that cannot be
    stopped is skipped. *)
Lemma stop_caught source st :
  try_catch (source_stop source) (fun _ => ret tt) st =
  (Normal tt, set_sourceNodes (stop_if_started (sourceNodes st) source) st).
Proof.
  unfold source_stop, stop_if_started. unfold_m. simpl.
  destruct (nth_error (sourceNodes st) source) as [n|] eqn:E.
  - destruct (started n) eqn:S; simpl.
    + f_equal. f_equal. apply update_nth_ext_at.
      intros x Hx. rewrite E in Hx. injection Hx as <-. now rewrite S.
    + rewrite update_nth_id; [now destruct st|].
      intros x Hx. rewrite E in Hx. injection Hx as <-. now rewrite S.
  - rewrite update_nth_id; [now destruct st|].
    intros x Hx. congruence.
Qed.

Lemma forEach_stop_caught sources : forall st,
  forEach (fun source => try_catch (source_stop source) (fun _ => ret tt)) sources st =
  (Normal tt, set_sourceNodes (fold_left stop_if_started sources (sourceNodes st)) st).
Proof.
  induction sources as [|s l IH]; intros st; simpl.
  - now destruct st.
  - unfold bind at 1. rewrite stop_caught, IH. reflexivity.
Qed.

(** [cleanup] always completes, and leaves [released st]. *)
Lemma cleanup_released st : cleanup st = (Normal tt, released st).
Proof.
  unfold cleanup.
  unfold bind at 1. unfold gets at 1.
  assert (Hhead :
    forall k : M unit,
      bind (match sessionPromiseRef st with
            | Some p => promise_then p SessionClose ;; modify (set_sessionPromiseRef None)
            | None => ret tt
            end) (fun _ => k) st =
      k (set_sessionPromiseRef None
           (set_sessionPromises
              (match sessionPromiseRef st with
               | Some p => update_nth p (fun rs => rs ++ [SessionClose]) (sessionPromises st)
               | None => sessionPromises st
               end) st))).
  { intros k. unfold_m. destruct st as [? ? ? ? ? ? ? ? ? [p|] ? ? ? ? ? ? ?]; reflexivity. }
  rewrite Hhead. clear Hhead.
  unfold bind at 1. unfold gets at 1.
  unfold bind at 1. rewrite forEach_stop_caught.
  unfold_m. unfold released.
  destruct st as [? ? ? ? ? ? [?|] [?|] ? ? [?|] ? ? ? ? ? ?]; reflexivity.
Qed.

Lemma close_unless_closed_idem ref :
  close_unless_closed (close_unless_closed ref) = close_unless_closed ref.
Proof.
  destruct ref as [[r [] t]|]; reflexivity.
Qed.

Lemma released_idem st : released (released st) = released st.
Proof.
  unfold released; simpl.
  rewrite !close_unless_closed_idem.
  destruct (inputSourceRef st), (processorRef st), (streamRef st) as [tracks|]; simpl;
    rewrite ?map_map; reflexivity.
Qed.

(** *** The capture callback computes the root mean square *)

Lemma fold_left_squares (samples : list float) : forall acc,
  fold_left (fun sum x => (sum + x * x)%float) samples acc
  = fold_left PrimFloat.add (squares samples) acc.
Proof.
  induction samples as [|x samples IH]; intros acc; [reflexivity|].
  cbn [fold_left squares map]. apply IH.
Qed.

Section CaptureFacts.

Context `{AudioUtils}.

Lemma rms_of_root_mean_square (inputData : list float) :
  rms_of inputData = root_mean_square inputData.
Proof.
  unfold rms_of, sum_of_squares, root_mean_square, mean, total.
  rewrite fold_left_squares. unfold squares. now rewrite length_map.
Qed.

End CaptureFacts.

(** *** The audio branch *)

Section MessageFacts.

Context `{AudioUtils}.

Lemma schedule_start_eq buf st :
  schedule_start buf st =
  (Normal tt,
   set_sourcesRef (Set_add (List.length (sourceNodes st)) (sourcesRef st))
     (set_nextStartTimeRef (nextStartTimeRef st + duration buf)%float
        (set_sourceNodes
           (sourceNodes st ++ [mkSource (Some buf) true (Some (nextStartTimeRef st)) false])
           st))).
Proof.
  unfold schedule_start, createBufferSource, source_start. unfold_m. simpl.
  rewrite !update_nth_app_last. simpl.
  rewrite nth_error_app_last. simpl.
  rewrite update_nth_app_last. simpl. reflexivity.
Qed.

(** [onmessage] by cases on what the decoder returns. *)
Lemma onmessage_eq message st :
  onmessage message st =
  match decoded message st with
  | None => (if interrupted_of message then interrupt else ret tt) st
  | Some (Normal buf) =>
      (if interrupted_of message then interrupt else ret tt) (scheduled st buf)
  | Some (Throw e) =>
      (Throw e,
       set_nextStartTimeRef (Number.Math_max (nextStartTimeRef st) (clock_of st))
         (set_isAiSpeaking true st))
  end.
Proof.
  unfold onmessage, decoded, clock_of.
  unfold bind at 1. unfold gets at 1.
  unfold bind at 1. unfold gets at 1.
  destruct (truthy (base64Audio_of message)) as [b64|];
    destruct (outputAudioContextRef st) as [ctx|] eqn:Ectx;
    destruct (outputNodeRef st) as [g|] eqn:Eg; try reflexivity.
  unfold bind at 1. unfold bind at 1. unfold schedule_decode.
  unfold_m. simpl.
  destruct (decode b64) as [bytes|e]; simpl; [|reflexivity].
  destruct (decodeAudioData bytes ctx 24000%float 1) as [buf|e]; simpl; [|reflexivity].
  rewrite schedule_start_eq. simpl. unfold scheduled, clock_of.
  simpl. rewrite Ectx. reflexivity.
Qed.

End MessageFacts.

(** *** The interruption branch *)

Lemma handle_started_stop nodes source source' :
  handle_started (stop_if_started nodes source') source = handle_started nodes source.
Proof.
  unfold handle_started, stop_if_started. rewrite nth_error_update_nth.
  destruct (Nat.eqb source' source); [|reflexivity].
  destruct (nth_error nodes source) as [n|]; simpl; [|reflexivity].
  destruct (started n) eqn:E; simpl; rewrite ?E; reflexivity.
Qed.

Lemma stop_started source st :
  handle_started (sourceNodes st) source = true ->
  source_stop source st =
  (Normal tt, set_sourceNodes (stop_if_started (sourceNodes st) source) st).
Proof.
  unfold handle_started, source_stop, stop_if_started. unfold_m. simpl.
  destruct (nth_error (sourceNodes st) source) as [n|] eqn:E; [|discriminate].
  destruct (started n) eqn:S; [|discriminate]. intros _.
  unfold modify. f_equal. f_equal. apply update_nth_ext_at.
  intros x Hx. rewrite E in Hx. injection Hx as <-. now rewrite S.
Qed.

Lemma forEach_stop_started sources : forall st,
  forallb (handle_started (sourceNodes st)) sources = true ->
  forEach source_stop sources st =
  (Normal tt, set_sourceNodes (fold_left stop_if_started sources (sourceNodes st)) st).
Proof.
  induction sources as [|s l IH]; intros st Hall; simpl.
  - now destruct st.
  - simpl in Hall. apply andb_true_iff in Hall as [Hs Hl].
    unfold bind at 1. rewrite (stop_started _ _ Hs), IH; [reflexivity|].
    simpl. rewrite forallb_forall in *. intros x Hx.
    rewrite handle_started_stop. now apply Hl.
Qed.

Lemma interrupt_eq st :
  sources_started st = true -> interrupt st = (Normal tt, interrupted_state st).
Proof.
  intros Hinv. unfold interrupt, interrupted_state.
  unfold bind at 1. unfold console_log at 1. unfold modify at 1.
  unfold bind at 1. unfold gets at 1.
  unfold bind at 1. rewrite forEach_stop_started by (now destruct st).
  unfold_m. now destruct st.
Qed.

(** Stopping is monotone: a stopped handle stays stopped, and every handle
    of the list that was started ends up stopped. *)
Lemma handle_stopped_stop nodes source source' :
  handle_stopped nodes source = true ->
  handle_stopped (stop_if_started nodes source') source = true.
Proof.
  unfold handle_stopped, stop_if_started. rewrite nth_error_update_nth.
  destruct (Nat.eqb source' source); [|trivial].
  destruct (nth_error nodes source) as [n|]; simpl; [|trivial].
  now destruct (started n).
Qed.

Lemma handle_stopped_fold sources : forall nodes source,
  handle_stopped nodes source = true ->
  handle_stopped (fold_left stop_if_started sources nodes) source = true.
Proof.
  induction sources as [|s l IH]; intros nodes source Hs; simpl; auto.
  apply IH. now apply handle_stopped_stop.
Qed.

Lemma stop_all_stopped sources : forall nodes source,
  In source sources ->
  handle_started nodes source = true ->
  handle_stopped (fold_left stop_if_started sources nodes) source = true.
Proof.
  induction sources as [|s l IH]; intros nodes source Hin Hst; simpl.
  - destruct Hin.
  - destruct Hin as [->|Hin].
    + apply handle_stopped_fold.
      unfold handle_stopped, handle_started, stop_if_started in *.
      rewrite nth_error_update_nth, Nat.eqb_refl.
      destruct (nth_error nodes source) as [n|]; simpl; [|discriminate].
      now destruct (started n).
    + apply IH; trivial. now rewrite handle_started_stop.
Qed.

Lemma stop_all_length sources : forall nodes,
  List.length (fold_left stop_if_started sources nodes) = List.length nodes.
Proof.
  induction sources as [|s l IH]; intros nodes; simpl; trivial.
  rewrite IH. apply update_nth_length.
Qed.

Lemma sourceNodes_scheduled st buf :
  sourceNodes (scheduled st buf) =
  sourceNodes st
    ++ [mkSource (Some buf) true
          (Some (Number.Math_max (nextStartTimeRef st) (clock_of st))) false].
Proof. reflexivity. Qed.

(** *** The invariant of the active-source set *)

Lemma handle_started_app nodes extra source :
  handle_started nodes source = true -> handle_started (nodes ++ extra) source = true.
Proof.
  unfold handle_started.
  destruct (nth_error nodes source) as [n|] eqn:E; [|discriminate].
  rewrite nth_error_app1 by (apply nth_error_Some; congruence).
  now rewrite E.
Qed.

Lemma sources_started_scheduled st buf :
  sources_started st = true -> sources_started (scheduled st buf) = true.
Proof.
  unfold sources_started, scheduled. destruct st; simpl.
  intros Hall. rewrite forallb_forall in *.
  intros x Hx. unfold Set_add in Hx.
  destruct (existsb _ _).
  - apply handle_started_app. now apply Hall.
  - apply in_app_or in Hx as [Hx|[<-|[]]].
    + apply handle_started_app. now apply Hall.
    + unfold handle_started. now rewrite nth_error_app_last.
Qed.

(** *** Reachable states keep the invariant *)

Lemma sources_started_released st : sources_started (released st) = true.
Proof. reflexivity. Qed.

Lemma sources_started_interrupted st : sources_started (interrupted_state st) = true.
Proof. reflexivity. Qed.

Lemma sources_started_same st st' :
  sourceNodes st' = sourceNodes st -> sourcesRef st' = sourcesRef st ->
  sources_started st' = sources_started st.
Proof.
  unfold sources_started. now intros -> ->.
Qed.

Section ReachableFacts.

Context `{AudioUtils}.

Lemma sources_started_onmessage message st :
  sources_started st = true -> sources_started (exec (onmessage message) st) = true.
Proof.
  intros Hinv. unfold exec. rewrite onmessage_eq.
  destruct (decoded message st) as [[buf|e]|].
  - pose proof (sources_started_scheduled st buf Hinv) as Hs.
    destruct (interrupted_of message); [|exact Hs].
    now rewrite interrupt_eq.
  - simpl. rewrite <- Hinv. now apply sources_started_same.
  - destruct (interrupted_of message); [|exact Hinv].
    now rewrite interrupt_eq.
Qed.

Lemma sources_started_onended source st :
  sources_started st = true -> sources_started (exec (onended source) st) = true.
Proof.
  unfold sources_started, onended, exec. unfold_m. simpl.
  intros Hall.
  assert (Hf : forallb (handle_started (sourceNodes st)) (Set_delete source (sourcesRef st)) = true).
  { rewrite forallb_forall in *. intros x Hx. apply Hall.
    unfold Set_delete in Hx. now apply filter_In in Hx. }
  destruct st; simpl in *.
  destruct (Set_delete source _); simpl in *; trivial.
Qed.

Lemma sources_started_connect env st :
  sources_started st = true -> sources_started (exec (connect env) st) = true.
Proof.
  intros Hinv. unfold connect, exec.
  destruct (API_KEY env); [now destruct st|].
  unfold try_catch.
  match goal with |- context [match ?m st with _ => _ end] => destruct (m st) as [[[]|e] st1] eqn:E end.
  - revert E. unfold_m. simpl. destruct (getUserMedia env); simpl; [|discriminate].
    intros E. injection E as <-. now destruct st.
  - unfold bind at 1. unfold console_log at 1. unfold modify at 1.
    unfold bind at 1. unfold setStatus at 1. unfold modify at 1.
    now rewrite cleanup_released.
Qed.

Lemma sources_started_handle ev st :
  sources_started st = true -> sources_started (exec (handle ev) st) = true.
Proof.
  intros Hinv. destruct ev; simpl.
  - now destruct st.
  - now apply sources_started_connect.
  - unfold onopen, exec. unfold_m. simpl.
    destruct (inputAudioContextRef st), (streamRef st); now destruct st.
  - unfold onaudioprocess, exec. unfold_m. simpl.
    destruct (sessionPromiseRef st); now destruct st.
  - unfold advance_clock, exec. unfold_m. simpl.
    destruct (outputAudioContextRef st); now destruct st.
  - now apply sources_started_onmessage.
  - now apply sources_started_onended.
  - now destruct st.
  - unfold onerror, exec. unfold_m. simpl. now rewrite cleanup_released.
  - unfold exec. now rewrite cleanup_released.
Qed.

(** Whatever the events, the handles of the active-source set exist and
    were started. *)
Lemma sources_started_run trace : forall st,
  sources_started st = true -> sources_started (run trace st) = true.
Proof.
  induction trace as [|ev trace IH]; intros st Hinv; simpl; trivial.
  apply IH. now apply sources_started_handle.
Qed.

Lemma sources_started_reachable trace : sources_started (run trace initial) = true.
Proof.
  now apply sources_started_run.
Qed.

(** What the decoder is given depends on the output context and the gain
    node only. *)
Lemma decoded_same_output message st st' :
  outputAudioContextRef st' = outputAudioContextRef st ->
  outputNodeRef st' = outputNodeRef st ->
  decoded message st' = decoded message st.
Proof.
  unfold decoded. now intros -> ->.
Qed.

End ReachableFacts.

(** *** The clock *)

Lemma advance_clock_eq t st :
  advance_clock t st = (Normal tt, exec (advance_clock t) st).
Proof. reflexivity. Qed.

Lemma advance_clock_frame t st :
  outputNodeRef (exec (advance_clock t) st) = outputNodeRef st
  /\ nextStartTimeRef (exec (advance_clock t) st) = nextStartTimeRef st
  /\ sourceNodes (exec (advance_clock t) st) = sourceNodes st
  /\ sourcesRef (exec (advance_clock t) st) = sourcesRef st.
Proof.
  unfold advance_clock, exec, modify; simpl.
  destruct (outputAudioContextRef st); repeat split.
Qed.

Lemma advance_clock_context t st :
  outputAudioContextRef (exec (advance_clock t) st) =
  option_map (fun ctx => mkAudioContext (sampleRate ctx) (state ctx) t)
    (outputAudioContextRef st).
Proof.
  unfold advance_clock, exec, modify; simpl.
  destruct (outputAudioContextRef st) eqn:E; simpl; rewrite ?E; reflexivity.
Qed.

Lemma clock_of_advance t st :
  outputAudioContextRef st <> None -> clock_of (exec (advance_clock t) st) = t.
Proof.
  unfold clock_of. rewrite advance_clock_context.
  destruct (outputAudioContextRef st); simpl; congruence.
Qed.

Section DecodedFacts.

Context `{AudioUtils}.

Lemma decoded_context message st c :
  decoded message st = Some c -> outputAudioContextRef st <> None.
Proof.
  unfold decoded. destruct (truthy _); [|discriminate].
  destruct (outputAudioContextRef st); [congruence|discriminate].
Qed.

End DecodedFacts.

(** ** Facts about the codec *)

Module CodecFacts.

Import Codec.

Lemma forall_range_spec bits : forall lo p,
  forall_range bits lo p = true ->
  forall k, (lo <= k < lo + 2 ^ Z.of_nat bits)%Z -> p k = true.
Proof.
  induction bits as [|b IH]; intros lo p Hp k Hk.
  - simpl in *. assert (k = lo) by lia. now subst.
  - cbn [forall_range] in Hp. apply andb_true_iff in Hp as [H1 H2].
    rewrite Nat2Z.inj_succ, Z.pow_succ_r in Hk by lia.
    destruct (Z_lt_le_dec k (lo + 2 ^ Z.of_nat b)).
    + apply (IH lo p H1). lia.
    + apply (IH _ p H2). lia.
Qed.

(** *** Bytes *)

Lemma byte_to_Z_range b : (0 <= byte_to_Z b < 256)%Z.
Proof.
  unfold byte_to_Z. pose proof (Byte.to_N_bounded b). lia.
Qed.

Lemma byte_of_to_Z b : byte_of_Z (byte_to_Z b) = b.
Proof.
  unfold byte_of_Z. rewrite Z.mod_small by apply byte_to_Z_range.
  unfold byte_to_Z. rewrite N2Z.id, Byte.of_to_N. reflexivity.
Qed.

Lemma byte_to_of_Z z : byte_to_Z (byte_of_Z z) = (z mod 256)%Z.
Proof.
  assert (Hz : (0 <= z mod 256 < 256)%Z) by (apply Z.mod_pos_bound; lia).
  unfold byte_of_Z, byte_to_Z.
  destruct (Byte.of_N (Z.to_N (z mod 256))) as [b|] eqn:E.
  - apply Byte.to_of_N in E. rewrite E. lia.
  - apply Byte.of_N_None_iff in E. lia.
Qed.

(** *** 16-bit integers *)

Lemma int16_bytes_round_trip z :
  (-32768 <= z <= 32767)%Z ->
  match int16_to_bytes z with
  | [lo; hi] => int16_of_bytes lo hi = z
  | _ => False
  end.
Proof.
  intros Hz. unfold int16_to_bytes, int16_of_bytes.
  rewrite !byte_to_of_Z.
  destruct (Z.ltb_spec (z mod 65536 mod 256 + 256 * (z mod 65536 / 256 mod 256)) 32768);
    Z.div_mod_to_equations; lia.
Qed.

Lemma bytes_to_int16s_round_trip zs :
  Forall (fun z => (-32768 <= z <= 32767)%Z) zs ->
  bytes_to_int16s (flat_map int16_to_bytes zs) = Some zs.
Proof.
  induction 1 as [|z zs Hz _ IH]; [reflexivity|].
  cbn [flat_map]. pose proof (int16_bytes_round_trip z Hz) as Hrt.
  unfold int16_to_bytes in *. cbn [app bytes_to_int16s].
  rewrite IH. now rewrite Hrt.
Qed.

(** *** Base64 *)

Lemma sextet_round_trip_all : forall_range 6 0%Z sextet_round_trip = true.
Proof. vm_compute. reflexivity. Qed.

Lemma sextet_ok n :
  (0 <= n < 64)%Z ->
  ascii_to_sextet (sextet_to_ascii n) = Some n
  /\ Ascii.eqb (sextet_to_ascii n) pad = false.
Proof.
  intros Hn.
  pose proof (forall_range_spec 6 0%Z _ sextet_round_trip_all n) as Hc.
  unfold sextet_round_trip in Hc.
  assert (Hr : (0 <= n < 0 + 2 ^ Z.of_nat 6)%Z) by (simpl; lia).
  apply Hc in Hr. apply andb_true_iff in Hr as [H1 H2].
  destruct (ascii_to_sextet (sextet_to_ascii n)) as [m|]; [|discriminate].
  apply Z.eqb_eq in H1. subst m. split; [reflexivity|].
  now apply negb_true_iff in H2.
Qed.

Ltac sextets :=
  repeat match goal with
         | |- context [ascii_to_sextet (sextet_to_ascii ?n)] =>
             let H := fresh in
             assert (H : (0 <= n < 64)%Z) by (Z.div_mod_to_equations; lia);
             destruct (sextet_ok n H) as [-> ?]; clear H
         | |- context [Ascii.eqb (sextet_to_ascii ?n) pad] =>
             let H := fresh in
             assert (H : (0 <= n < 64)%Z) by (Z.div_mod_to_equations; lia);
             destruct (sextet_ok n H) as [_ ->]; clear H
         end.

Lemma byte_of_Z_eq z b : z = byte_to_Z b -> byte_of_Z z = b.
Proof. intros ->. apply byte_of_to_Z. Qed.

Lemma base64_round_trip_aux n : forall bs,
  (List.length bs <= n)%nat -> base64_decode (base64_encode bs) = Some bs.
Proof.
  induction n as [|n IH]; intros bs Hlen.
  - destruct bs; [reflexivity|simpl in Hlen; lia].
  - destruct bs as [|b0 [|b1 [|b2 rest]]]; [reflexivity| | |].
    + pose proof (byte_to_Z_range b0).
      cbn [base64_encode base64_decode]. sextets.
      rewrite !Ascii.eqb_refl.
      unfold bytes_of_2. f_equal. f_equal. apply byte_of_Z_eq.
      Z.div_mod_to_equations; lia.
    + pose proof (byte_to_Z_range b0). pose proof (byte_to_Z_range b1).
      cbn [base64_encode base64_decode]. sextets.
      rewrite Ascii.eqb_refl.
      unfold bytes_of_3. f_equal. f_equal; [|f_equal]; apply byte_of_Z_eq;
        Z.div_mod_to_equations; lia.
    + pose proof (byte_to_Z_range b0). pose proof (byte_to_Z_range b1).
      pose proof (byte_to_Z_range b2).
      cbn [base64_encode base64_decode]. sextets.
      rewrite IH by (simpl in Hlen; lia).
      unfold bytes_of_4. cbn [app]. f_equal.
      f_equal; [|f_equal; [|f_equal]]; apply byte_of_Z_eq;
        Z.div_mod_to_equations; lia.
Qed.

(** Decoding inverts encoding on every byte buffer. *)
Lemma base64_round_trip bs : base64_decode (base64_encode bs) = Some bs.
Proof. now apply (base64_round_trip_aux (List.length bs)). Qed.

(** *** Samples *)

Lemma grid_round_trip_all :
  forall_range 16 (-32768)%Z grid_round_trip = true /\ grid_round_trip 32768 = true.
Proof. split; vm_compute; reflexivity. Qed.

Lemma grid_round_trip_ok k :
  (-32768 <= k <= 32768)%Z -> grid_round_trip k = true.
Proof.
  intros Hk. destruct grid_round_trip_all as [Hall Htop].
  destruct (Z.eq_dec k 32768) as [->|Hne]; [exact Htop|].
  apply (forall_range_spec 16 (-32768)%Z _ Hall). simpl. lia.
Qed.

Lemma map_nth_seq {A B} (f : A -> B) (d : A) (l : list A) :
  map (fun i => f (nth (i * 1 + 0) l d)) (seq 0 (List.length l)) = map f l.
Proof.
  assert (Hgen : forall pre,
             map (fun i => f (nth (i * 1 + 0) (pre ++ l) d))
                 (seq (List.length pre) (List.length l)) = map f l).
  { induction l as [|x l IH]; intros pre; [reflexivity|].
    cbn [List.length seq map]. f_equal.
    - rewrite Nat.mul_1_r, Nat.add_0_r. now rewrite nth_middle.
    - specialize (IH (pre ++ [x])). rewrite <- app_assoc in IH. cbn [app] in IH.
      rewrite length_app in IH. cbn [List.length] in IH.
      rewrite Nat.add_1_r in IH. exact IH. }
  exact (Hgen []).
Qed.

End CodecFacts.

(** ** The claims *)

Section Claims.

Context `{AudioUtils}.

(** C6. [cleanup] is idempotent and safe from every state: from any state
    of the component, also one where no resource or only some were
    created, it completes without throwing, and run a second time it
    completes again and changes nothing; after it the status is
    DISCONNECTED, the active-source set is empty and both speaking
    indicators are off. From the state of the first render it changes
    nothing at all. *)
Theorem cleanup_idempotent :
  (forall st : App,
      exists st1 : App,
        cleanup st = (Normal tt, st1)
        /\ cleanup st1 = (Normal tt, st1)
        /\ status st1 = DISCONNECTED
        /\ sourcesRef st1 = []
        /\ isUserSpeaking st1 = false
        /\ isAiSpeaking st1 = false)
  /\ cleanup initial = (Normal tt, initial).
Proof.
  split.
  - intros st. exists (released st).
    rewrite !cleanup_released, released_idem. repeat split.
  - now rewrite cleanup_released.
Qed.

(** [onerror] from any state: the handler sets ERROR and then calls
    [cleanup], whose last writes set DISCONNECTED, so the status it leaves
    is DISCONNECTED. The teardown itself is complete: the state left is
    the one [cleanup] leaves. *)
Theorem onerror_ends_DISCONNECTED (st : App) :
  completion onerror st = Normal tt
  /\ status (exec onerror st) = DISCONNECTED
  /\ exec onerror st =
     exec cleanup (set_status ERROR (set_console (console st ++ ["Session error"%string]) st)).
Proof.
  unfold onerror. unfold_m. simpl. rewrite cleanup_released. repeat split.
Qed.

(** The [catch] block of [connect] ends the same way: when the microphone
    is refused after the contexts were created, the status left is
    DISCONNECTED and both contexts are closed. *)
Lemma connect_refused_ends_DISCONNECTED (env : Environment) (st : App) (e : Exn) :
  API_KEY env <> EmptyString ->
  getUserMedia env = Throw e ->
  completion (connect env) st = Normal tt
  /\ status (exec (connect env) st) = DISCONNECTED
  /\ option_map state (inputAudioContextRef (exec (connect env) st)) = Some closed
  /\ option_map state (outputAudioContextRef (exec (connect env) st)) = Some closed.
Proof.
  intros Hkey Hgum. unfold connect, completion, exec.
  destruct (API_KEY env); [congruence|].
  unfold try_catch, bind at 1. unfold setStatus at 1. unfold modify at 1.
  unfold_m. simpl. rewrite Hgum. simpl.
  rewrite cleanup_released. repeat split.
Qed.

(** [onclose] from any state: it writes the status and the console and
    nothing else, so no playback handle is stopped, the capture pipeline
    stays connected, the tracks stay live and the contexts stay open. *)
Theorem onclose_releases_nothing (st : App) :
  onclose st =
  (Normal tt, set_status DISCONNECTED (set_console (console st ++ ["Session closed"%string]) st)).
Proof.
  reflexivity.
Qed.

(** C7. Without a credential in the environment [connect] raises the
    alert and returns: the status and every ref are as before, no audio
    context, media stream or session promise is created, and a status of
    DISCONNECTED stays DISCONNECTED. *)
Theorem connect_without_key (env : Environment) (st : App) :
  API_KEY env = EmptyString ->
  connect env st =
    (Normal tt,
     set_alerts (alerts st ++ ["API Key is missing in environment variables"%string]) st)
  /\ status (exec (connect env) st) = status st
  /\ (status st = DISCONNECTED -> status (exec (connect env) st) = DISCONNECTED)
  /\ inputAudioContextRef (exec (connect env) st) = inputAudioContextRef st
  /\ outputAudioContextRef (exec (connect env) st) = outputAudioContextRef st
  /\ streamRef (exec (connect env) st) = streamRef st
  /\ sessionPromiseRef (exec (connect env) st) = sessionPromiseRef st
  /\ sessionPromises (exec (connect env) st) = sessionPromises st.
Proof.
  intros Hkey. unfold connect, exec. rewrite Hkey. simpl. repeat split; auto.
Qed.

(** C10. A message that carries neither inline audio nor an interruption
    flag leaves the component as it was: [onmessage] completes and the
    whole state, so also [nextStartTimeRef], the active-source set, the
    status and both speaking indicators, is unchanged. *)
Theorem onmessage_frame (message : LiveServerMessage) (st : App) :
  truthy (base64Audio_of message) = None ->
  interrupted_of message = false ->
  onmessage message st = (Normal tt, st)
  /\ nextStartTimeRef (exec (onmessage message) st) = nextStartTimeRef st
  /\ sourcesRef (exec (onmessage message) st) = sourcesRef st
  /\ status (exec (onmessage message) st) = status st
  /\ isUserSpeaking (exec (onmessage message) st) = isUserSpeaking st
  /\ isAiSpeaking (exec (onmessage message) st) = isAiSpeaking st.
Proof.
  intros Haudio Hint.
  assert (E : onmessage message st = (Normal tt, st)).
  { unfold onmessage. rewrite Haudio, Hint. reflexivity. }
  unfold exec. rewrite E. repeat split.
Qed.

(** C8. When the output clock has passed the end of the last scheduled
    chunk ([nextStartTimeRef], which every scheduling leaves at start plus
    duration), the next chunk starts at the clock's reading, not at the
    stale end: the handle created for an audio chunk is started at
    [Math.max(nextStartTimeRef, ctx.currentTime)]. *)
Theorem gap_fill (message : LiveServerMessage) (st : App) (buf : AudioBuffer) :
  decoded message st = Some (Normal buf) ->
  interrupted_of message = false ->
  let start := Number.Math_max (nextStartTimeRef st) (clock_of st) in
  let st' := exec (onmessage message) st in
  completion (onmessage message) st = Normal tt
  /\ nth_error (sourceNodes st') (List.length (sourceNodes st)) =
     Some (mkSource (Some buf) true (Some start) false)
  /\ ((nextStartTimeRef st <? clock_of st)%float = true -> start = clock_of st)
  /\ nextStartTimeRef st' = (start + duration buf)%float.
Proof.
  intros Hdec Hint start st'. subst st'. unfold exec, completion.
  rewrite onmessage_eq, Hdec, Hint. simpl.
  repeat split.
  - apply nth_error_app_last.
  - apply NumberFacts.Math_max_lt.
Qed.

(** C1. Audio chunks handled one after the other never overlap: whatever
    the chunks and the readings of the output clock at which they arrive,
    every chunk is scheduled, and each one starts no earlier than the
    start of the chunk before it plus that chunk's duration, and no
    earlier than the clock's reading when its scheduling began. *)
Theorem chunks_never_overlap (chunks : list (float * LiveServerMessage)) (st : App) :
  is_nan (nextStartTimeRef st) = false ->
  Forall (fun chunk =>
            is_nan (fst chunk) = false
            /\ exists buf, audio_chunk (snd chunk) (exec (advance_clock (fst chunk)) st) buf)
         chunks ->
  exists nodes,
    completion (deliver chunks) st = Normal tt
    /\ sourceNodes (exec (deliver chunks) st) = sourceNodes st ++ nodes
    /\ back_to_back (nextStartTimeRef st) (map fst chunks) nodes.
Proof.
  intros Hnan Hall.
  assert (Hgen : forall st1,
             outputNodeRef st1 = outputNodeRef st ->
             (forall t, outputAudioContextRef (exec (advance_clock t) st1)
                        = outputAudioContextRef (exec (advance_clock t) st)) ->
             is_nan (nextStartTimeRef st1) = false ->
             exists nodes,
               completion (deliver chunks) st1 = Normal tt
               /\ sourceNodes (exec (deliver chunks) st1) = sourceNodes st1 ++ nodes
               /\ back_to_back (nextStartTimeRef st1) (map fst chunks) nodes).
  { clear Hnan. induction Hall as [|[t message] rest [Ht [buf (Hdec & Hint & Hfin)]] _ IH];
      intros st1 Hnode Hctx Hnan1.
    - exists []. simpl. rewrite app_nil_r. repeat split.
    - simpl in Ht, Hdec, Hint.
      set (st2 := exec (advance_clock t) st1).
      destruct (advance_clock_frame t st1) as (Hnode2 & Hnext & Hnodes & _).
      fold st2 in Hnode2, Hnext, Hnodes.
      assert (Hdec2 : decoded message st2 = Some (Normal buf)).
      { rewrite <- Hdec. apply decoded_same_output.
        - apply Hctx.
        - destruct (advance_clock_frame t st) as (-> & _). congruence. }
      assert (Hclock : clock_of st2 = t).
      { apply clock_of_advance. intros Hnone.
        apply (decoded_context _ _ _ Hdec2).
        unfold st2. now rewrite advance_clock_context, Hnone. }
      set (start := Number.Math_max (nextStartTimeRef st1) t).
      assert (Hstart : is_nan start = false)
        by (now apply NumberFacts.Math_max_not_nan).
      destruct (IH (scheduled st2 buf)) as (nodes & Hc & Hn & Hb).
      + rewrite <- Hnode, <- Hnode2. now destruct st2.
      + intros t'. rewrite <- Hctx.
        rewrite !advance_clock_context.
        replace (outputAudioContextRef (scheduled st2 buf))
          with (outputAudioContextRef st2) by (now destruct st2).
        unfold st2. rewrite advance_clock_context.
        now destruct (outputAudioContextRef st1).
      + unfold scheduled; simpl. rewrite Hclock, Hnext.
        now apply NumberFacts.add_not_nan.
      + exists (mkSource (Some buf) true (Some start) false :: nodes).
        assert (E : deliver ((t, message) :: rest) st1 = deliver rest (scheduled st2 buf)).
        { simpl. unfold bind at 1. rewrite advance_clock_eq. fold st2.
          unfold bind at 1. rewrite onmessage_eq, Hdec2, Hint. reflexivity. }
        unfold completion, exec in *. rewrite E. split; [exact Hc|]. split.
        * rewrite Hn. unfold scheduled; simpl.
          rewrite Hclock, Hnext, Hnodes. fold start. now rewrite <- app_assoc.
        * simpl. exists start, buf. repeat split.
          -- now apply NumberFacts.Math_max_ge_l.
          -- now apply NumberFacts.Math_max_ge_r.
          -- revert Hb. unfold scheduled; simpl. now rewrite Hclock, Hnext. }
  apply Hgen; auto.
Qed.

(** C2. After [onmessage] has handled an interruption, every playback
    handle that was in the active-source set (and the one the same
    message may have added) has been stopped, the set is empty,
    [nextStartTimeRef] is 0 and the examiner-speaking indicator is off;
    the chunk scheduled next starts at or after the reading of the output
    clock. *)
Theorem interruption_clears (message : LiveServerMessage) (st : App) :
  sources_started st = true ->
  interrupted_of message = true ->
  (forall e, decoded message st <> Some (Throw e)) ->
  let st' := exec (onmessage message) st in
  completion (onmessage message) st = Normal tt
  /\ (forall source, In source (sourcesRef st) ->
                     handle_stopped (sourceNodes st') source = true)
  /\ (forall source, List.length (sourceNodes st) <= source < List.length (sourceNodes st') ->
                     handle_stopped (sourceNodes st') source = true)
  /\ sourcesRef st' = []
  /\ nextStartTimeRef st' = 0%float
  /\ isAiSpeaking st' = false
  /\ (forall t message2 buf2,
         is_nan t = false ->
         decoded message2 (exec (advance_clock t) st') = Some (Normal buf2) ->
         interrupted_of message2 = false ->
         exists s,
           option_map started
             (nth_error
                (sourceNodes (exec (onmessage message2) (exec (advance_clock t) st')))
                (List.length (sourceNodes st'))) = Some (Some s)
           /\ (t <=? s)%float = true).
Proof.
  intros Hinv Hint Hdec st'.
  assert (Hshape : exists st1,
             sources_started st1 = true
             /\ onmessage message st = (Normal tt, interrupted_state st1)
             /\ (forall source, In source (sourcesRef st) -> In source (sourcesRef st1))
             /\ (forall source, In source (sourcesRef st) ->
                                handle_started (sourceNodes st1) source = true)
             /\ (forall source,
                    List.length (sourceNodes st) <= source < List.length (sourceNodes st1) ->
                    In source (sourcesRef st1)
                    /\ handle_started (sourceNodes st1) source = true)).
  { rewrite onmessage_eq, Hint.
    pose proof Hinv as Hall. unfold sources_started in Hall. rewrite forallb_forall in Hall.
    destruct (decoded message st) as [[buf|e]|].
    - exists (scheduled st buf).
      pose proof (sources_started_scheduled st buf Hinv) as Hs.
      split; [exact Hs|]. split; [now apply interrupt_eq|].
      assert (Hold : forall source, In source (sourcesRef st) ->
                                    In source (sourcesRef (scheduled st buf))).
      { intros source Hin. unfold scheduled, Set_add; simpl.
        destruct (existsb _ _); [trivial|]. apply in_or_app. now left. }
      split; [exact Hold|]. split.
      + intros source Hin. unfold scheduled; simpl.
        apply handle_started_app. now apply Hall.
      + unfold scheduled; simpl. rewrite length_app; simpl.
        intros source Hrange. assert (source = List.length (sourceNodes st)) as -> by lia.
        split.
        * unfold Set_add. destruct (existsb _ _) eqn:Ex.
          -- apply existsb_exists in Ex as (y & Hy & Heq).
             apply Nat.eqb_eq in Heq. now subst.
          -- apply in_or_app. right. now left.
        * unfold handle_started. now rewrite nth_error_app_last.
    - now destruct (Hdec e).
    - exists st. split; [exact Hinv|]. split; [now apply interrupt_eq|].
      split; [now intros|]. split; [exact Hall|]. intros source Hrange. lia. }
  destruct Hshape as (st1 & Hinv1 & E & Hin1 & Hst1 & Hnew).
  assert (Hlen : List.length (sourceNodes (interrupted_state st1)) = List.length (sourceNodes st1)).
  { unfold interrupted_state; simpl. apply stop_all_length. }
  subst st'. unfold completion, exec. rewrite E. cbn [fst snd].
  split; [reflexivity|]. split.
  { intros source Hin. apply stop_all_stopped; auto. }
  split.
  { intros source Hrange. rewrite Hlen in Hrange.
    destruct (Hnew source Hrange). now apply stop_all_stopped. }
  split; [reflexivity|]. split; [reflexivity|]. split; [reflexivity|].
  intros t message2 buf2 Ht Hdec2 Hint2.
  set (st3 := exec (advance_clock t) (interrupted_state st1)) in *.
  change (snd (advance_clock t (interrupted_state st1))) with st3 in *.
  destruct (advance_clock_frame t (interrupted_state st1)) as (_ & Hnext & Hnodes & _).
  fold st3 in Hnext, Hnodes.
  rewrite onmessage_eq, Hdec2, Hint2. cbn [snd ret].
  rewrite sourceNodes_scheduled, <- Hnodes, nth_error_app_last. cbn [option_map started].
  eexists. split; [reflexivity|].
  rewrite Hnext. unfold st3. rewrite clock_of_advance.
  - now apply NumberFacts.Math_max_ge_r.
  - intros Hnone. apply (decoded_context _ _ _ Hdec2).
    unfold st3. now rewrite advance_clock_context, Hnone.
Qed.

(** C9. For every captured frame the capture callback computes the
    root-mean-square of the samples, the square root of the mean of their
    squares, and switches the user-speaking indicator on exactly when it
    exceeds 0.02 (so an RMS of 0.05 switches it on and an RMS of 0
    switches it off), and chains on the session promise the sending of
    the frame, encoded by the codec, as a realtime input. *)
Theorem capture_frame (inputData : list float) (st : App) (p : nat) (pending : list Reaction) :
  sessionPromiseRef st = Some p ->
  nth_error (sessionPromises st) p = Some pending ->
  let st' := exec (onaudioprocess inputData) st in
  completion (onaudioprocess inputData) st = Normal tt
  /\ isUserSpeaking st' = (0.02 <? root_mean_square inputData)%float
  /\ (root_mean_square inputData = 0.05%float -> isUserSpeaking st' = true)
  /\ (root_mean_square inputData = 0%float -> isUserSpeaking st' = false)
  /\ nth_error (sessionPromises st') p =
     Some (pending ++ [SendRealtimeInput (createPcmBlob inputData)]).
Proof.
  intros Hp Hpending st'. subst st'.
  rewrite <- rms_of_root_mean_square.
  unfold onaudioprocess, exec, completion. unfold_m. simpl.
  rewrite Hp. simpl.
  split; [reflexivity|]. split; [reflexivity|].
  split; [now intros ->|]. split; [now intros ->|].
  rewrite nth_error_update_nth, Nat.eqb_refl, Hpending. reflexivity.
Qed.

End Claims.

(** C3. For samples on the 16-bit quantization grid of [-1,1], encoding
    and then decoding (base64, little-endian 16-bit integers, division by
    32768) succeeds and returns, in the single channel of the buffer, one
    sample per original sample, each within 1/32768 of the original. *)
Theorem codec_round_trip (samples : list float) (ctx : AudioContext) (sample_rate : float) :
  Forall Codec.on_grid samples ->
  exists b64 bytes buf reproduced,
    data (Codec.encode samples) = Some b64
    /\ Codec.decode b64 = Normal bytes
    /\ Codec.decodePlayable bytes ctx sample_rate 1 = Normal buf
    /\ channels buf = [reproduced]
    /\ Forall2 (fun x y => Codec.within_quantum x y = true) samples reproduced.
Proof.
  intros Hgrid.
  set (ints := map Codec.sample_to_int16 samples).
  assert (Hcheck : Forall (fun x => sample_round_trip x = true) samples).
  { apply Forall_forall. intros x Hx.
    rewrite Forall_forall in Hgrid. destruct (Hgrid x Hx) as (k & Hk & ->).
    now apply CodecFacts.grid_round_trip_ok. }
  assert (Hrange : Forall (fun z => (-32768 <= z <= 32767)%Z) ints).
  { unfold ints. apply Forall_map. apply Forall_forall. intros x Hx.
    rewrite Forall_forall in Hcheck. specialize (Hcheck x Hx).
    unfold sample_round_trip in Hcheck.
    apply andb_true_iff in Hcheck as [Hr _]. apply andb_true_iff in Hr as [Hlo Hhi].
    apply Z.leb_le in Hlo, Hhi. lia. }
  exists (Codec.base64_encode (flat_map Codec.int16_to_bytes ints)),
         (flat_map Codec.int16_to_bytes ints),
         (mkAudioBuffer [map Codec.int16_to_sample ints]
            (Number.of_nat (List.length ints) / sample_rate)%float),
         (map Codec.int16_to_sample ints).
  split; [reflexivity|]. split.
  { unfold Codec.decode. now rewrite CodecFacts.base64_round_trip. }
  split.
  { unfold Codec.decodePlayable.
    rewrite (CodecFacts.bytes_to_int16s_round_trip ints Hrange).
    rewrite Nat.div_1_r. cbn [seq map].
    now rewrite (CodecFacts.map_nth_seq Codec.int16_to_sample 0%Z ints). }
  split; [reflexivity|].
  unfold ints. clear Hrange ints Hgrid.
  induction Hcheck as [|x l Hx _ IH]; cbn [map]; constructor; [|exact IH].
  unfold sample_round_trip in Hx. now apply andb_true_iff in Hx as [_ Hx].
Qed.

(** C4, at a concrete state: the session is open and one chunk is
    playing when the service reports an error. The handler tears
    everything down, and the status it leaves is DISCONNECTED, not ERROR. *)
Example onerror_while_playing :
  status playing = CONNECTED
  /\ completion onerror playing = Normal tt
  /\ status (exec onerror playing) = DISCONNECTED
  /\ status (exec onerror playing) <> ERROR
  /\ handle_stopped (sourceNodes (exec onerror playing)) 0 = true
  /\ streamRef (exec onerror playing) = Some [ended]
  /\ option_map state (inputAudioContextRef (exec onerror playing)) = Some closed
  /\ option_map state (outputAudioContextRef (exec onerror playing)) = Some closed.
Proof.
  repeat split; try reflexivity. discriminate.
Qed.

(** C5, at a concrete state: the session is open and one chunk is playing
    when the service closes the session. The handler sets the status and
    releases nothing: the handle is not stopped, the processor is still
    connected with its callback installed, the track is live, both
    contexts are running and the session promise is still held. *)
Example onclose_while_playing :
  completion onclose playing = Normal tt
  /\ status (exec onclose playing) = DISCONNECTED
  /\ sourcesRef (exec onclose playing) = [0]
  /\ handle_stopped (sourceNodes (exec onclose playing)) 0 = false
  /\ processorRef (exec onclose playing) = Some (mkProcessor true true)
  /\ inputSourceRef (exec onclose playing) = Some (mkInputSource true)
  /\ streamRef (exec onclose playing) = Some [live]
  /\ option_map state (inputAudioContextRef (exec onclose playing)) = Some running
  /\ option_map state (outputAudioContextRef (exec onclose playing)) = Some running
  /\ sessionPromiseRef (exec onclose playing) = Some 0.
Proof.
  repeat split.
Qed.

(** *** The scenarios of the spec, evaluated *)

(** Two chunks back to back, the spec's scenario at one eighth of its
    durations: chunks of 0.125 s and 0.0625 s (3000 and 1500 samples at
    24 kHz), the first delivered at clock reading 0 and the second at
    0.025, before the first has finished. The first starts at 0, the
    second at 0.125, and [nextStartTimeRef] ends at 0.1875. *)
Example two_chunks_scenario :
  playback_summary
    (exec (deliver [(0%float, silence_message 3000); (0.025%float, silence_message 1500)])
       session_open)
  = ([Some 0%float; Some 0.125%float], [Some 0.125%float; Some 0.0625%float],
     0.1875%float, [0; 1], true).
Proof.
  vm_compute. reflexivity.
Qed.

(** A frame of 4096 samples at 0.05 has an RMS above the threshold and
    switches the indicator on; a frame of silence has RMS 0 and switches
    it off. The indicator follows the whole frame, not one sample: a
    frame that begins with silence and has an RMS of exactly 0.05
    switches it on, and a frame whose first sample is above the
    threshold but whose RMS is 0.015 switches it off. *)
Example loud_and_silent_frames :
  isUserSpeaking (exec (onaudioprocess (constant_frame 0.05)) session_open) = true
  /\ root_mean_square (constant_frame 0) = 0%float
  /\ isUserSpeaking (exec (onaudioprocess (constant_frame 0)) playing) = false
  /\ root_mean_square late_pulse_frame = 0.05%float
  /\ isUserSpeaking (exec (onaudioprocess late_pulse_frame) session_open) = true
  /\ root_mean_square weak_pulse_frame = 0.015%float
  /\ isUserSpeaking (exec (onaudioprocess weak_pulse_frame) playing) = false.
Proof.
  vm_compute. repeat split.
Qed.

(** An interruption in the middle of playback: the handle is stopped, the
    set is emptied, [nextStartTimeRef] is 0 and the indicator is off. *)
Example interruption_scenario :
  let st := exec (onmessage interruption_message) playing in
  map stopped (sourceNodes st) = [true]
  /\ sourcesRef st = []
  /\ nextStartTimeRef st = 0%float
  /\ isAiSpeaking st = false.
Proof.
  vm_compute. repeat split.
Qed.

(** *** Witnesses *)

Lemma codec_round_trip_witness :
  Forall Codec.on_grid [0.5; -0.5; 1; -1; 0]%float
  /\ exists b64 bytes buf reproduced,
      data (Codec.encode [0.5; -0.5; 1; -1; 0]%float) = Some b64
      /\ Codec.decode b64 = Normal bytes
      /\ Codec.decodePlayable bytes (mkAudioContext 24000 running 0) 24000%float 1
         = Normal buf
      /\ channels buf = [reproduced]
      /\ Forall2 (fun x y => Codec.within_quantum x y = true)
           [0.5; -0.5; 1; -1; 0]%float reproduced.
Proof.
  assert (Hgrid : Forall Codec.on_grid [0.5; -0.5; 1; -1; 0]%float).
  { repeat constructor.
    - exists 16384%Z. split; [lia|reflexivity].
    - exists (-16384)%Z. split; [lia|reflexivity].
    - exists 32768%Z. split; [lia|reflexivity].
    - exists (-32768)%Z. split; [lia|reflexivity].
    - exists 0%Z. split; [lia|reflexivity]. }
  split; [exact Hgrid|].
  exact (codec_round_trip _ (mkAudioContext 24000 running 0) 24000%float Hgrid).
Defined.

Lemma gap_fill_witness :
  decoded (audio_message four_samples) (exec (advance_clock 7) playing)
  = Some (Normal four_samples_buffer)
  /\ interrupted_of (audio_message four_samples) = false
  /\ (nextStartTimeRef (exec (advance_clock 7) playing)
      <? clock_of (exec (advance_clock 7) playing))%float = true
  /\ nth_error
       (sourceNodes
          (exec (onmessage (audio_message four_samples)) (exec (advance_clock 7) playing)))
       1
     = Some (mkSource (Some four_samples_buffer) true (Some 7%float) false).
Proof.
  split; [reflexivity|]. split; [reflexivity|]. split; [reflexivity|].
  apply (gap_fill (audio_message four_samples) (exec (advance_clock 7) playing)
           four_samples_buffer); reflexivity.
Defined.

Lemma chunks_never_overlap_witness :
  is_nan (nextStartTimeRef session_open) = false
  /\ Forall (fun chunk =>
               is_nan (fst chunk) = false
               /\ exists buf,
                   audio_chunk (snd chunk) (exec (advance_clock (fst chunk)) session_open) buf)
            three_chunks
  /\ exists nodes,
      completion (deliver three_chunks) session_open = Normal tt
      /\ sourceNodes (exec (deliver three_chunks) session_open) = sourceNodes session_open ++ nodes
      /\ back_to_back (nextStartTimeRef session_open) (map fst three_chunks) nodes.
Proof.
  assert (Hchunks :
    Forall (fun chunk =>
              is_nan (fst chunk) = false
              /\ exists buf,
                  audio_chunk (snd chunk) (exec (advance_clock (fst chunk)) session_open) buf)
           three_chunks).
  { repeat constructor; exists four_samples_buffer; repeat split; reflexivity. }
  split; [reflexivity|]. split; [exact Hchunks|].
  exact (chunks_never_overlap three_chunks session_open eq_refl Hchunks).
Defined.

Lemma interruption_clears_witness :
  sources_started playing = true
  /\ interrupted_of interruption_message = true
  /\ (forall e, decoded interruption_message playing <> Some (Throw e))
  /\ sourcesRef (exec (onmessage interruption_message) playing) = []
  /\ nextStartTimeRef (exec (onmessage interruption_message) playing) = 0%float.
Proof.
  assert (Hdec : forall e, decoded interruption_message playing <> Some (Throw e))
    by (intros e; discriminate).
  split; [reflexivity|]. split; [reflexivity|]. split; [exact Hdec|].
  pose proof (interruption_clears interruption_message playing eq_refl eq_refl Hdec) as Hc.
  split; apply Hc.
Defined.

Lemma capture_frame_witness :
  sessionPromiseRef playing = Some 0
  /\ nth_error (sessionPromises playing) 0 = Some []
  /\ root_mean_square late_pulse_frame = 0.05%float
  /\ isUserSpeaking (exec (onaudioprocess late_pulse_frame) playing) = true
  /\ isUserSpeaking (exec (onaudioprocess weak_pulse_frame) playing) = false
  /\ nth_error (sessionPromises (exec (onaudioprocess late_pulse_frame) playing)) 0
     = Some [SendRealtimeInput (Codec.encode late_pulse_frame)].
Proof.
  split; [reflexivity|]. split; [reflexivity|]. split; [reflexivity|].
  pose proof (capture_frame late_pulse_frame playing 0 [] eq_refl eq_refl) as Hc.
  pose proof (capture_frame weak_pulse_frame playing 0 [] eq_refl eq_refl) as Hw.
  cbv zeta in Hc, Hw. destruct Hc as (_ & _ & Hon & _ & Hp). destruct Hw as (_ & Hs & _).
  split; [exact (Hon eq_refl)|]. split; [rewrite Hs; reflexivity | exact Hp].
Defined.


Lemma connect_without_key_witness :
  API_KEY keyless_env = EmptyString
  /\ status (exec (connect keyless_env) initial) = DISCONNECTED.
Proof.
  split; [reflexivity|].
  apply (connect_without_key keyless_env initial); reflexivity.
Defined.

Lemma onmessage_frame_witness :
  truthy (base64Audio_of empty_message) = None
  /\ interrupted_of empty_message = false
  /\ onmessage empty_message playing = (Normal tt, playing).
Proof.
  split; [reflexivity|]. split; [reflexivity|].
  apply (onmessage_frame empty_message playing); reflexivity.
Defined.

(** ** More facts: the callbacks in closed form *)

Lemma connect_eq (env : Environment) (st : App) :
  connect env st =
  match API_KEY env with
  | EmptyString =>
      (Normal tt,
       set_alerts (alerts st ++ ["API Key is missing in environment variables"%string]) st)
  | String _ _ =>
      match getUserMedia env with
      | Normal stream => (Normal tt, session_requested stream st)
      | Throw e =>
          (Normal tt,
           released
             (set_status ERROR
                (set_console
                   (console st ++ [match e with
                                   | InvalidStateError => "InvalidStateError"%string
                                   | Rejected reason => reason
                                   end])
                   (contexts_created st))))
      end
  end.
Proof.
  unfold connect. destruct (API_KEY env); [reflexivity|].
  unfold try_catch, bind at 1. unfold setStatus at 1. unfold modify at 1.
  unfold_m. simpl. destruct (getUserMedia env) as [stream|e]; simpl.
  - now destruct st.
  - rewrite cleanup_released. now destruct st.
Qed.

Lemma onopen_eq (st : App) : onopen st = (Normal tt, opened st).
Proof.
  unfold onopen, opened. unfold_m. simpl.
  destruct (inputAudioContextRef st), (streamRef st); now destruct st.
Qed.

Lemma onended_eq (source : nat) (st : App) :
  onended source st =
  (Normal tt,
   match Set_delete source (sourcesRef st) with
   | [] => set_isAiSpeaking false (set_sourcesRef [] st)
   | remaining => set_sourcesRef remaining st
   end).
Proof.
  unfold onended. unfold_m. simpl.
  destruct (Set_delete source (sourcesRef st)); now destruct st.
Qed.

Section OnaudioprocessFacts.

Context `{AudioUtils}.

Lemma onaudioprocess_eq (inputData : list float) (st : App) :
  onaudioprocess inputData st =
  (Normal tt,
   match sessionPromiseRef st with
   | Some p =>
       set_sessionPromises
         (update_nth p (fun rs => rs ++ [SendRealtimeInput (createPcmBlob inputData)])
            (sessionPromises st))
         (set_isUserSpeaking (0.02 <? rms_of inputData)%float st)
   | None => set_isUserSpeaking (0.02 <? rms_of inputData)%float st
   end).
Proof.
  unfold onaudioprocess. unfold_m. simpl.
  destruct (sessionPromiseRef st); now destruct st.
Qed.

End OnaudioprocessFacts.

(** *** The scheduler invariant *)

Lemma scheduler_ok_same (st st' : App) :
  sourceNodes st' = sourceNodes st ->
  sourcesRef st' = sourcesRef st ->
  isAiSpeaking st' = isAiSpeaking st ->
  status st' <> ERROR ->
  scheduler_ok st -> scheduler_ok st'.
Proof.
  unfold scheduler_ok, sources_started.
  intros -> -> -> Hs (H1 & H2 & H3 & H4 & _). auto.
Qed.

Lemma handle_complete_stop nodes : forall source,
  forallb handle_complete nodes = true ->
  forallb handle_complete (stop_if_started nodes source) = true.
Proof.
  unfold stop_if_started.
  induction nodes as [|n nodes IH]; intros source Hall; [now destruct source|].
  cbn [forallb] in Hall. apply andb_true_iff in Hall as [Hn Hrest].
  destruct source as [|source]; cbn [update_nth forallb]; apply andb_true_iff; split.
  - unfold handle_complete in *. destruct (buffer n) eqn:B, (started n) eqn:S; simpl;
      rewrite ?B, ?S; trivial; discriminate.
  - exact Hrest.
  - exact Hn.
  - now apply IH.
Qed.

Lemma handle_complete_stop_all sources : forall nodes,
  forallb handle_complete nodes = true ->
  forallb handle_complete (fold_left stop_if_started sources nodes) = true.
Proof.
  induction sources as [|s l IH]; intros nodes Hall; simpl; trivial.
  apply IH. now apply handle_complete_stop.
Qed.

Lemma scheduler_ok_released (st : App) :
  forallb handle_complete (sourceNodes st) = true -> scheduler_ok (released st).
Proof.
  intros Hall. unfold scheduler_ok, released, sources_started; simpl.
  repeat split; try congruence. now apply handle_complete_stop_all.
Qed.

Lemma scheduler_ok_interrupted (st : App) :
  forallb handle_complete (sourceNodes st) = true -> status st <> ERROR ->
  scheduler_ok (interrupted_state st).
Proof.
  intros Hall Hs. unfold scheduler_ok, interrupted_state, sources_started; simpl.
  repeat split; try congruence. now apply handle_complete_stop_all.
Qed.

Lemma handle_stopped_app nodes extra source :
  source < List.length nodes ->
  handle_stopped (nodes ++ extra) source = handle_stopped nodes source.
Proof.
  intros Hlt. unfold handle_stopped. now rewrite nth_error_app1.
Qed.

Lemma handle_started_lt nodes source :
  handle_started nodes source = true -> source < List.length nodes.
Proof.
  unfold handle_started. intros Hs. apply nth_error_Some.
  destruct (nth_error nodes source); [discriminate|discriminate].
Qed.

Lemma scheduler_ok_scheduled (st : App) (buf : AudioBuffer) :
  scheduler_ok st -> scheduler_ok (scheduled st buf).
Proof.
  intros (H1 & H2 & H3 & H4 & H5).
  split; [now apply sources_started_scheduled|].
  unfold sources_started in H1. rewrite forallb_forall in H1, H3.
  unfold scheduled; simpl. split; [|split; [|split; [reflexivity|exact H5]]].
  - rewrite forallb_app, H2. reflexivity.
  - apply forallb_forall. intros x Hx. unfold Set_add in Hx.
    assert (Hold : In x (sourcesRef st) ->
                   negb (handle_stopped (sourceNodes st ++
                     [mkSource (Some buf) true
                        (Some (Number.Math_max (nextStartTimeRef st) (clock_of st))) false]) x)
                   = true).
    { intros Hin. rewrite handle_stopped_app; [now apply H3|].
      apply handle_started_lt. now apply H1. }
    destruct (existsb _ _); [now apply Hold|].
    apply in_app_or in Hx as [Hx|[<-|[]]]; [now apply Hold|].
    unfold handle_stopped. now rewrite nth_error_app_last.
Qed.

Lemma scheduler_ok_ended (source : nat) (st : App) :
  scheduler_ok st -> scheduler_ok (exec (onended source) st).
Proof.
  intros (H1 & H2 & H3 & H4 & H5). unfold exec. rewrite onended_eq. cbn [snd].
  unfold sources_started in H1.
  assert (Hsub : forall x, In x (Set_delete source (sourcesRef st)) -> In x (sourcesRef st)).
  { intros x Hx. unfold Set_delete in Hx. now apply filter_In in Hx. }
  destruct (Set_delete source (sourcesRef st)) as [|y l] eqn:E.
  - unfold scheduler_ok, sources_started. destruct st; simpl in *.
    repeat split; try congruence; auto.
  - assert (Hne : sourcesRef st <> []).
    { intros Hnil. specialize (Hsub y (or_introl eq_refl)). rewrite Hnil in Hsub.
      destruct Hsub. }
    rewrite forallb_forall in H1, H3.
    remember (y :: l) as remaining eqn:Er. clear Er E.
    unfold scheduler_ok, sources_started. destruct st; cbn in *.
    repeat split; auto; apply forallb_forall; intros x Hx; auto.
Qed.

Section InvariantFacts.

Context `{AudioUtils}.

Lemma scheduler_ok_onmessage (message : LiveServerMessage) (st : App) :
  scheduler_ok st -> scheduler_ok (exec (onmessage message) st).
Proof.
  intros Hok. unfold exec. rewrite onmessage_eq.
  destruct (decoded message st) as [[buf|e]|].
  - pose proof (scheduler_ok_scheduled st buf Hok) as Hs.
    destruct (interrupted_of message); [|exact Hs].
    destruct Hs as (S1 & S2 & _ & _ & S5).
    rewrite interrupt_eq by exact S1. now apply scheduler_ok_interrupted.
  - cbn [snd]. destruct Hok as (H1 & H2 & H3 & H4 & H5).
    unfold scheduler_ok, sources_started in *. destruct st; simpl in *. auto.
  - destruct (interrupted_of message); [|exact Hok].
    destruct Hok as (S1 & S2 & _ & _ & S5).
    rewrite interrupt_eq by exact S1. now apply scheduler_ok_interrupted.
Qed.

Lemma scheduler_ok_handle (ev : Event) (st : App) :
  scheduler_ok st -> scheduler_ok (exec (handle ev) st).
Proof.
  intros Hok. pose proof Hok as (H1 & H2 & H3 & H4 & H5).
  destruct ev; cbn [handle].
  - apply (scheduler_ok_same st); trivial.
  - unfold exec. rewrite connect_eq.
    destruct (API_KEY env); [apply (scheduler_ok_same st); trivial|].
    destruct (getUserMedia env) as [stream|e]; cbn [snd].
    + apply (scheduler_ok_same st); trivial. discriminate.
    + apply scheduler_ok_released. exact H2.
  - unfold exec. rewrite onopen_eq. cbn [snd].
    apply (scheduler_ok_same st); trivial;
      unfold opened; destruct (inputAudioContextRef st), (streamRef st);
      try reflexivity; discriminate.
  - unfold exec. rewrite onaudioprocess_eq. cbn [snd].
    apply (scheduler_ok_same st); trivial; destruct (sessionPromiseRef st); trivial.
  - apply (scheduler_ok_same st); trivial;
      unfold advance_clock, exec, modify; cbn [snd];
      destruct (outputAudioContextRef st); trivial.
  - now apply scheduler_ok_onmessage.
  - now apply scheduler_ok_ended.
  - apply (scheduler_ok_same st); trivial. discriminate.
  - unfold onerror, exec. unfold_m. simpl. rewrite cleanup_released. cbn [snd].
    apply scheduler_ok_released. exact H2.
  - unfold exec. rewrite cleanup_released. now apply scheduler_ok_released.
Qed.

Lemma scheduler_ok_run (trace : list Event) : forall st,
  scheduler_ok st -> scheduler_ok (run trace st).
Proof.
  induction trace as [|ev trace IH]; intros st Hok; simpl; trivial.
  apply IH. now apply scheduler_ok_handle.
Qed.

Lemma scheduler_ok_initial : scheduler_ok initial.
Proof.
  unfold scheduler_ok. repeat split; try reflexivity; simpl; congruence.
Qed.

End InvariantFacts.

(** *** More on [Math.max] *)

Module NumberMore.

Import Number NumberFacts.
Open Scope float_scope.

Lemma ltb_asym x y : (x <? y) = true -> (y <? x) = false.
Proof.
  rewrite !FloatAxioms.ltb_spec. unfold SFltb.
  rewrite (SFcompare_antisym (Prim2SF x) (Prim2SF y)).
  destruct (SFcompare (Prim2SF x) (Prim2SF y)) as [[]|]; simpl; congruence.
Qed.

Lemma ltb_not_nan x y : (x <? y) = true -> is_nan x = false /\ is_nan y = false.
Proof.
  rewrite !is_nan_spec, FloatAxioms.ltb_spec. unfold SFltb.
  destruct (Prim2SF x), (Prim2SF y); simpl; auto; discriminate.
Qed.

(** When the second argument is strictly below the first, [Math.max]
    returns the first. *)
Lemma Math_max_gt a b : (b <? a) = true -> Math_max a b = a.
Proof.
  intros Hlt. destruct (ltb_not_nan _ _ Hlt) as [Hb Ha].
  unfold Math_max. rewrite Ha, Hb, (ltb_asym _ _ Hlt), Hlt. reflexivity.
Qed.

End NumberMore.

(** *** The numbers of the scheduler *)

Lemma numbers_ok_same (st st' : App) :
  nextStartTimeRef st' = nextStartTimeRef st ->
  clock_of st' = clock_of st ->
  sourceNodes st' = sourceNodes st ->
  numbers_ok st -> numbers_ok st'.
Proof.
  unfold numbers_ok, starts_are_numbers. now intros -> -> ->.
Qed.

Lemma starts_stop nodes : forall source,
  forallb (fun n => match started n with
                    | Some s => negb (is_nan s)
                    | None => true
                    end) nodes = true ->
  forallb (fun n => match started n with
                    | Some s => negb (is_nan s)
                    | None => true
                    end) (stop_if_started nodes source) = true.
Proof.
  unfold stop_if_started.
  induction nodes as [|n nodes IH]; intros source Hall; [now destruct source|].
  cbn [forallb] in Hall. apply andb_true_iff in Hall as [Hn Hrest].
  destruct source as [|source]; cbn [update_nth forallb]; apply andb_true_iff; split;
    auto.
  destruct (started n) eqn:S; cbn; rewrite ?S; exact Hn.
Qed.

Lemma starts_stop_all sources : forall nodes,
  forallb (fun n => match started n with
                    | Some s => negb (is_nan s)
                    | None => true
                    end) nodes = true ->
  forallb (fun n => match started n with
                    | Some s => negb (is_nan s)
                    | None => true
                    end) (fold_left stop_if_started sources nodes) = true.
Proof.
  induction sources as [|s l IH]; intros nodes Hall; simpl; trivial.
  apply IH. now apply starts_stop.
Qed.

Lemma clock_of_closed ref :
  match close_unless_closed ref with
  | Some ctx => currentTime ctx
  | None => 0%float
  end = match ref with Some ctx => currentTime ctx | None => 0%float end.
Proof.
  destruct ref as [[r [] t]|]; reflexivity.
Qed.

Lemma numbers_ok_released (st : App) : numbers_ok st -> numbers_ok (released st).
Proof.
  intros (H1 & H2 & H3). unfold numbers_ok, starts_are_numbers, released, clock_of in *.
  cbn. rewrite clock_of_closed. repeat split; trivial. now apply starts_stop_all.
Qed.

Lemma numbers_ok_interrupted (st : App) :
  numbers_ok st -> numbers_ok (interrupted_state st).
Proof.
  intros (H1 & H2 & H3). unfold numbers_ok, starts_are_numbers, interrupted_state in *.
  split; [reflexivity|]. split; [now destruct st|].
  cbn. now apply starts_stop_all.
Qed.

Lemma numbers_ok_scheduled (st : App) (buf : AudioBuffer) :
  is_finite (duration buf) = true -> numbers_ok st -> numbers_ok (scheduled st buf).
Proof.
  intros Hfin (H1 & H2 & H3).
  pose proof (NumberFacts.Math_max_not_nan _ _ H1 H2) as Hmax.
  unfold numbers_ok, starts_are_numbers, scheduled in *. cbn.
  split; [now apply NumberFacts.add_not_nan|]. split; [now destruct st|].
  rewrite forallb_app, H3. cbn. now rewrite Hmax.
Qed.

Section NumberInvariant.

Context `{AudioUtils}.

Lemma numbers_ok_handle (ev : Event) (st : App) :
  scheduler_ok st -> numbers_ok st -> clean_event ev st ->
  numbers_ok (exec (handle ev) st).
Proof.
  intros Hok Hnum Hclean. pose proof Hnum as (N1 & N2 & N3).
  destruct ev; cbn [handle clean_event] in *.
  - now apply (numbers_ok_same st).
  - unfold exec. rewrite connect_eq.
    destruct (API_KEY env); [now apply (numbers_ok_same st)|].
    destruct (getUserMedia env) as [stream|e]; cbn [snd].
    + unfold numbers_ok, starts_are_numbers in *. cbn. auto.
    + apply numbers_ok_released.
      unfold numbers_ok, starts_are_numbers in *. cbn. auto.
  - unfold exec. rewrite onopen_eq. cbn [snd].
    apply (numbers_ok_same st); trivial;
      unfold opened, clock_of; destruct (inputAudioContextRef st), (streamRef st);
      reflexivity.
  - unfold exec. rewrite onaudioprocess_eq. cbn [snd].
    apply (numbers_ok_same st); trivial; unfold clock_of;
      destruct (sessionPromiseRef st); reflexivity.
  - destruct (advance_clock_frame t st) as (_ & Hn & Hs & _).
    unfold numbers_ok, starts_are_numbers. rewrite Hn, Hs.
    split; [exact N1|]. split; [|exact N3].
    unfold clock_of. rewrite advance_clock_context.
    destruct (outputAudioContextRef st); cbn; [exact Hclean|reflexivity].
  - unfold exec. rewrite onmessage_eq.
    destruct (decoded message st) as [[buf|e]|].
    + pose proof (numbers_ok_scheduled st buf Hclean Hnum) as Hs.
      destruct (interrupted_of message); [|exact Hs].
      rewrite interrupt_eq by (apply sources_started_scheduled; apply Hok).
      now apply numbers_ok_interrupted.
    + cbn [snd]. unfold numbers_ok, starts_are_numbers in *. cbn.
      split; [now apply NumberFacts.Math_max_not_nan|]. split; [now destruct st|].
      exact N3.
    + destruct (interrupted_of message); [|exact Hnum].
      rewrite interrupt_eq by apply Hok. now apply numbers_ok_interrupted.
  - unfold exec. rewrite onended_eq. cbn [snd].
    apply (numbers_ok_same st); trivial; unfold clock_of;
      destruct (Set_delete source (sourcesRef st)); reflexivity.
  - now apply (numbers_ok_same st).
  - unfold onerror, exec. unfold_m. simpl. rewrite cleanup_released. cbn [snd].
    apply numbers_ok_released. now apply (numbers_ok_same st).
  - unfold exec. rewrite cleanup_released. now apply numbers_ok_released.
Qed.

Lemma numbers_ok_run (trace : list Event) : forall st,
  scheduler_ok st -> numbers_ok st -> clean_run trace st -> numbers_ok (run trace st).
Proof.
  induction trace as [|ev trace IH]; intros st Hok Hnum Hclean; simpl; trivial.
  destruct Hclean as [Hev Hrest]. apply IH; trivial.
  - now apply scheduler_ok_handle.
  - now apply numbers_ok_handle.
Qed.

End NumberInvariant.

(** *** The controls *)

Lemma click_mic_eq (env : Environment) (st : App) :
  click env ClickMic st =
  if hasPermission st && negb (status_eqb (status st) CONNECTED)
     && negb (status_eqb (status st) CONNECTING)
  then connect env st else (Normal tt, st).
Proof.
  unfold click. unfold_m. unfold Controls. cbn.
  destruct (status st), (hasPermission st); reflexivity.
Qed.

Lemma click_end_eq (env : Environment) (st : App) :
  click env ClickEndSession st =
  if status_eqb (status st) CONNECTED then cleanup st else (Normal tt, st).
Proof.
  unfold click. unfold_m. unfold Controls. cbn.
  destruct (status st), (hasPermission st); reflexivity.
Qed.

(** *** NaN through the RMS computation *)

Module NaNFacts.

Import Number NumberFacts.
Open Scope float_scope.

Lemma add_nan_l x y : is_nan x = true -> is_nan (x + y) = true.
Proof.
  rewrite !is_nan_spec, FloatAxioms.add_spec. unfold SF64add.
  destruct (Prim2SF x); simpl; try discriminate. reflexivity.
Qed.

Lemma add_nan_r x y : is_nan y = true -> is_nan (x + y) = true.
Proof.
  rewrite !is_nan_spec, FloatAxioms.add_spec. unfold SF64add.
  destruct (Prim2SF y); simpl; try discriminate. now destruct (Prim2SF x).
Qed.

Lemma mul_nan x : is_nan x = true -> is_nan (x * x) = true.
Proof.
  rewrite !is_nan_spec, FloatAxioms.mul_spec. unfold SF64mul.
  destruct (Prim2SF x); simpl; try discriminate. reflexivity.
Qed.

Lemma div_nan_l x y : is_nan x = true -> is_nan (x / y) = true.
Proof.
  rewrite !is_nan_spec, FloatAxioms.div_spec. unfold SF64div.
  destruct (Prim2SF x); simpl; try discriminate. reflexivity.
Qed.

Lemma sqrt_nan x : is_nan x = true -> is_nan (PrimFloat.sqrt x) = true.
Proof.
  rewrite !is_nan_spec, FloatAxioms.sqrt_spec. unfold SF64sqrt.
  destruct (Prim2SF x); simpl; try discriminate. reflexivity.
Qed.

Lemma ltb_nan_r x y : is_nan y = true -> (x <? y) = false.
Proof.
  rewrite is_nan_spec, FloatAxioms.ltb_spec. unfold SFltb.
  destruct (Prim2SF y); simpl; try discriminate. now destruct (Prim2SF x).
Qed.

Lemma sum_of_squares_nan_acc l : forall acc,
  is_nan acc = true ->
  is_nan (fold_left (fun sum x => sum + x * x) l acc) = true.
Proof.
  induction l as [|y l IH]; intros acc Hacc; simpl; trivial.
  apply IH. now apply add_nan_l.
Qed.

Lemma sum_of_squares_nan l : forall acc x,
  In x l -> is_nan x = true ->
  is_nan (fold_left (fun sum x => sum + x * x) l acc) = true.
Proof.
  induction l as [|y l IH]; intros acc x Hin Hx; [destruct Hin|].
  simpl. destruct Hin as [->|Hin].
  - apply sum_of_squares_nan_acc. apply add_nan_r. now apply mul_nan.
  - now apply (IH _ x).
Qed.

End NaNFacts.

(** *** The two halves of [onmessage] *)

Lemma scheduled_resumed (st : App) (buf : AudioBuffer) :
  scheduled st buf = resumed (synced st) buf.
Proof. now destruct st. Qed.

Section SuspensionFacts.

Context `{AudioUtils}.

(** The first half by cases on what the decoder returns. *)
Lemma onmessage_begin_eq (message : LiveServerMessage) (st : App) :
  onmessage_begin message st =
  match decoded message st with
  | None =>
      if interrupted_of message
      then match interrupt st with
           | (Normal _, st') => (Normal None, st')
           | (Throw e, st') => (Throw e, st')
           end
      else (Normal None, st)
  | Some outcome =>
      match truthy (base64Audio_of message) with
      | Some b64 =>
          match decode b64 with
          | Normal _ => (Normal (Some (mkSuspended message outcome)), synced st)
          | Throw e => (Throw e, synced st)
          end
      | None => (Normal None, st)
      end
  end.
Proof.
  unfold onmessage_begin, decoded, synced, clock_of.
  unfold bind at 1. unfold gets at 1.
  unfold bind at 1. unfold gets at 1.
  destruct (truthy (base64Audio_of message)) as [b64|];
    destruct (outputAudioContextRef st) as [ctx|] eqn:Ectx;
    destruct (outputNodeRef st) as [g|] eqn:Eg;
    try (destruct (interrupted_of message); unfold bind, ret;
         [now destruct (interrupt st) as [[[]|e] st']|reflexivity]).
  unfold_m. simpl. destruct (decode b64) as [bytes|e]; reflexivity.
Qed.

Lemma onmessage_resume_eq (s : Suspended) (st : App) :
  onmessage_resume s st =
  match settles_with s with
  | Normal buf =>
      (if interrupted_of (awaited_by s) then interrupt else ret tt) (resumed st buf)
  | Throw e => (Throw e, st)
  end.
Proof.
  unfold onmessage_resume. unfold bind at 1. unfold lift.
  destruct (settles_with s) as [buf|e]; [|reflexivity].
  unfold bind. rewrite schedule_start_eq. reflexivity.
Qed.

(** Handling a message in one step is beginning it and resuming it at
    once. *)
Lemma onmessage_halves (message : LiveServerMessage) (st : App) :
  onmessage message st =
  match onmessage_begin message st with
  | (Normal (Some s), st1) => onmessage_resume s st1
  | (Normal None, st1) => (Normal tt, st1)
  | (Throw e, st1) => (Throw e, st1)
  end.
Proof.
  rewrite onmessage_eq, onmessage_begin_eq.
  destruct (decoded message st) as [outcome|] eqn:Hdec.
  - unfold decoded in Hdec.
    destruct (truthy (base64Audio_of message)) as [b64|]; [|discriminate].
    destruct (outputAudioContextRef st) as [ctx|]; [|discriminate].
    destruct (outputNodeRef st); [|discriminate].
    injection Hdec as <-.
    destruct (decode b64) as [bytes|e]; [|reflexivity].
    rewrite onmessage_resume_eq. cbn [settles_with awaited_by].
    destruct (decodeAudioData bytes ctx 24000%float 1) as [buf|e]; [|reflexivity].
    now rewrite scheduled_resumed.
  - destruct (interrupted_of message); [|reflexivity].
    now destruct (interrupt st) as [[[]|e] st'].
Qed.

End SuspensionFacts.

(** *** The handles while handlers are suspended *)

Lemma scheduler_ok_handles (st : App) : scheduler_ok st -> handles_ok st.
Proof. intros (H1 & H2 & H3 & _ & H5). now repeat split. Qed.

Lemma handles_ok_scheduler (st : App) :
  handles_ok st -> (sourcesRef st <> [] -> isAiSpeaking st = true) -> scheduler_ok st.
Proof. intros (H1 & H2 & H3 & H5) H4. now repeat split. Qed.

Lemma handles_ok_same (st st' : App) :
  sourceNodes st' = sourceNodes st ->
  sourcesRef st' = sourcesRef st ->
  status st' <> ERROR ->
  handles_ok st -> handles_ok st'.
Proof.
  unfold handles_ok, sources_started. intros -> -> Hs (H1 & H2 & H3 & _). auto.
Qed.

Lemma handles_ok_synced (st : App) : handles_ok st -> handles_ok (synced st).
Proof.
  intros Hok. apply (handles_ok_same st); trivial. apply Hok.
Qed.

Lemma handles_ok_resumed (st : App) (buf : AudioBuffer) :
  handles_ok st -> handles_ok (resumed st buf).
Proof.
  intros (H1 & H2 & H3 & H5).
  unfold handles_ok, sources_started in *. rewrite forallb_forall in H1, H3.
  unfold resumed; simpl.
  assert (Hold : forall x, In x (sourcesRef st) ->
            handle_started (sourceNodes st ++
              [mkSource (Some buf) true (Some (nextStartTimeRef st)) false]) x = true
            /\ negb (handle_stopped (sourceNodes st ++
                 [mkSource (Some buf) true (Some (nextStartTimeRef st)) false]) x) = true).
  { intros x Hin. split; [apply handle_started_app; now apply H1|].
    rewrite handle_stopped_app; [now apply H3|].
    apply handle_started_lt. now apply H1. }
  assert (Hnew : forall x, In x (Set_add (List.length (sourceNodes st)) (sourcesRef st)) ->
            handle_started (sourceNodes st ++
              [mkSource (Some buf) true (Some (nextStartTimeRef st)) false]) x = true
            /\ negb (handle_stopped (sourceNodes st ++
                 [mkSource (Some buf) true (Some (nextStartTimeRef st)) false]) x) = true).
  { intros x Hx. unfold Set_add in Hx.
    destruct (existsb _ _); [now apply Hold|].
    apply in_app_or in Hx as [Hx|[<-|[]]]; [now apply Hold|].
    unfold handle_started, handle_stopped. now rewrite nth_error_app_last. }
  split; [apply forallb_forall; intros x Hx; now apply Hnew|].
  split; [rewrite forallb_app, H2; reflexivity|].
  split; [apply forallb_forall; intros x Hx; now apply Hnew|exact H5].
Qed.

Lemma handles_ok_released (st : App) :
  forallb handle_complete (sourceNodes st) = true -> handles_ok (released st).
Proof.
  intros Hall. now apply scheduler_ok_handles, scheduler_ok_released.
Qed.

Lemma handles_ok_interrupt (st : App) :
  handles_ok st -> handles_ok (snd (interrupt st)).
Proof.
  intros (H1 & H2 & H3 & H5). rewrite interrupt_eq by exact H1. cbn [snd].
  now apply scheduler_ok_handles, scheduler_ok_interrupted.
Qed.

Lemma handles_ok_ended (source : nat) (st : App) :
  handles_ok st -> handles_ok (exec (onended source) st).
Proof.
  intros (H1 & H2 & H3 & H5). unfold exec. rewrite onended_eq. cbn [snd].
  unfold sources_started in H1.
  assert (Hsub : forall x, In x (Set_delete source (sourcesRef st)) -> In x (sourcesRef st)).
  { intros x Hx. unfold Set_delete in Hx. now apply filter_In in Hx. }
  rewrite forallb_forall in H1, H3.
  destruct (Set_delete source (sourcesRef st)) as [|y l] eqn:E.
  - unfold handles_ok, sources_started. destruct st; simpl in *.
    repeat split; try congruence; auto.
  - remember (y :: l) as remaining eqn:Er. clear Er E.
    unfold handles_ok, sources_started. destruct st; cbn in *.
    repeat split; auto; apply forallb_forall; intros x Hx; auto.
Qed.

Section AsyncFacts.

Context `{AudioUtils}.

Lemma handles_ok_begin (message : LiveServerMessage) (st : App) :
  handles_ok st -> handles_ok (snd (onmessage_begin message st)).
Proof.
  intros Hok. rewrite onmessage_begin_eq.
  destruct (decoded message st) as [outcome|].
  - destruct (truthy (base64Audio_of message)) as [b64|]; [|exact Hok].
    destruct (decode b64); cbn [snd]; now apply handles_ok_synced.
  - destruct (interrupted_of message); [|exact Hok].
    pose proof (handles_ok_interrupt st Hok) as Hi.
    now destruct (interrupt st) as [[[]|e] st'].
Qed.

Lemma handles_ok_resume (s : Suspended) (st : App) :
  handles_ok st -> handles_ok (exec (onmessage_resume s) st).
Proof.
  intros Hok. unfold exec. rewrite onmessage_resume_eq.
  destruct (settles_with s) as [buf|e]; [|exact Hok].
  pose proof (handles_ok_resumed st buf Hok) as Hr.
  destruct (interrupted_of (awaited_by s)); [|exact Hr].
  now apply handles_ok_interrupt.
Qed.

Lemma handles_ok_handle (ev : Event) (st : App) :
  handles_ok st -> handles_ok (exec (handle ev) st).
Proof.
  intros Hok. pose proof Hok as (H1 & H2 & H3 & H5).
  destruct ev; cbn [handle].
  - apply (handles_ok_same st); trivial.
  - unfold exec. rewrite connect_eq.
    destruct (API_KEY env); [apply (handles_ok_same st); trivial|].
    destruct (getUserMedia env) as [stream|e]; cbn [snd].
    + apply (handles_ok_same st); trivial. discriminate.
    + apply handles_ok_released. exact H2.
  - unfold exec. rewrite onopen_eq. cbn [snd].
    apply (handles_ok_same st); trivial;
      unfold opened; destruct (inputAudioContextRef st), (streamRef st);
      try reflexivity; discriminate.
  - unfold exec. rewrite onaudioprocess_eq. cbn [snd].
    apply (handles_ok_same st); trivial; destruct (sessionPromiseRef st); trivial.
  - apply (handles_ok_same st); trivial;
      unfold advance_clock, exec, modify; cbn [snd];
      destruct (outputAudioContextRef st); trivial.
  - unfold exec. rewrite onmessage_halves.
    pose proof (handles_ok_begin message st Hok) as Hb.
    destruct (onmessage_begin message st) as [[[s|]|e] st1]; cbn [snd] in *; trivial.
    now apply handles_ok_resume.
  - now apply handles_ok_ended.
  - apply (handles_ok_same st); trivial. discriminate.
  - unfold onerror, exec. unfold_m. simpl. rewrite cleanup_released. cbn [snd].
    apply handles_ok_released. exact H2.
  - unfold exec. rewrite cleanup_released. now apply handles_ok_released.
Qed.

Lemma handles_ok_step (s : Step) (a : Async) :
  handles_ok (component a) -> handles_ok (component (async_step s a)).
Proof.
  intros Hok. destruct s as [ev|message|k]; cbn [async_step].
  - now apply handles_ok_handle.
  - pose proof (handles_ok_begin message (component a) Hok) as Hb.
    now destruct (onmessage_begin message (component a)) as [[[s|]|e] st1].
  - destruct (nth_error (awaiting a) k) as [s|]; [|exact Hok].
    now apply handles_ok_resume.
Qed.

Lemma handles_ok_run (trace : list Step) : forall a,
  handles_ok (component a) -> handles_ok (component (async_run trace a)).
Proof.
  induction trace as [|s trace IH]; intros a Hok; [exact Hok|].
  apply IH. now apply handles_ok_step.
Qed.

Lemma handles_ok_initial : handles_ok initial.
Proof. apply scheduler_ok_handles, scheduler_ok_initial. Qed.

End AsyncFacts.

(** *** The indicator while handlers are suspended *)

Lemma remove_nth_single {A} (x : A) (k : nat) (y : A) :
  nth_error [x] k = Some y -> remove_nth k [x] = [].
Proof.
  destruct k as [|k]; [reflexivity|]. destruct k; discriminate.
Qed.

Section IndicatorFacts.

Context `{AudioUtils}.

Lemma indicator_kept (ev : Event) (st : App) :
  switches_off ev = false ->
  isAiSpeaking st = true -> isAiSpeaking (exec (handle ev) st) = true.
Proof.
  intros Hev Hon. destruct ev; try discriminate; cbn [handle switches_off] in *.
  - exact Hon.
  - unfold exec. rewrite onopen_eq. cbn [snd]. unfold opened.
    now destruct (inputAudioContextRef st), (streamRef st).
  - unfold exec. rewrite onaudioprocess_eq. cbn [snd].
    now destruct (sessionPromiseRef st).
  - unfold advance_clock, exec, modify. cbn [snd].
    now destruct (outputAudioContextRef st).
  - unfold exec. rewrite onmessage_eq, Hev.
    now destruct (decoded message st) as [[buf|e]|].
  - exact Hon.
Qed.

Lemma indicator_ok_step (s : Step) (a : Async) :
  undisturbed_step s a = true ->
  handles_ok (component a) -> indicator_ok a ->
  indicator_ok (async_step s a).
Proof.
  intros Hs Hok [Hset Hawait].
  pose proof (handles_ok_scheduler _ Hok Hset) as Hsched.
  destruct s as [ev|message|k]; cbn [async_step].
  - destruct (scheduler_ok_handle ev _ Hsched) as (_ & _ & _ & Hset' & _).
    split; cbn [component awaiting]; [exact Hset'|].
    intros Hne. unfold undisturbed_step in Hs.
    destruct (awaiting a) as [|x others]; [congruence|].
    apply indicator_kept; [now apply negb_true_iff|]. apply Hawait. discriminate.
  - rewrite onmessage_begin_eq.
    destruct (decoded message (component a)) as [outcome|].
    + destruct (truthy (base64Audio_of message)) as [b64|].
      * destruct (decode b64); split; cbn [component awaiting]; intros _; reflexivity.
      * split; cbn [component awaiting]; assumption.
    + destruct (interrupted_of message) eqn:Hint.
      * unfold undisturbed_step in Hs.
        destruct (awaiting a) as [|x others] eqn:Ea; [|rewrite Hint in Hs; discriminate].
        rewrite interrupt_eq by apply Hok.
        split; cbn [component awaiting]; [cbn; congruence|]. rewrite ?Ea. congruence.
      * split; cbn [component awaiting]; assumption.
  - destruct (nth_error (awaiting a) k) as [s|] eqn:Hk; [|now split].
    assert (Hne : awaiting a <> []) by (intros E; rewrite E in Hk; now destruct k).
    specialize (Hawait Hne).
    unfold exec. rewrite onmessage_resume_eq.
    destruct (settles_with s) as [buf|e].
    + destruct (interrupted_of (awaited_by s)) eqn:Hint.
      * unfold undisturbed_step in Hs.
        destruct (awaiting a) as [|x others] eqn:Ea; [congruence|].
        rewrite Hk, Hint in Hs. cbn in Hs.
        destruct others; [|discriminate].
        rewrite interrupt_eq
          by (apply (handles_ok_resumed _ buf Hok)).
        split; cbn [component awaiting snd]; [now cbn|].
        rewrite (remove_nth_single _ _ _ Hk). congruence.
      * split; cbn [component awaiting snd ret]; intros _; exact Hawait.
    + split; cbn [component awaiting snd]; intros _; exact Hawait.
Qed.

Lemma indicator_ok_run (trace : list Step) : forall a,
  undisturbed trace a = true ->
  handles_ok (component a) -> indicator_ok a ->
  indicator_ok (async_run trace a).
Proof.
  induction trace as [|s trace IH]; intros a Hu Hok Hind; [exact Hind|].
  cbn [undisturbed] in Hu. apply andb_true_iff in Hu as [Hs Hrest].
  apply IH; [exact Hrest | now apply handles_ok_step | now apply indicator_ok_step].
Qed.

Lemma indicator_ok_initial : indicator_ok initial_async.
Proof. split; cbn; congruence. Qed.

End IndicatorFacts.

Section MoreAsyncFacts.

Context `{AudioUtils}.

Lemma onmessage_begin_decoded (message : LiveServerMessage) (st : App) (buf : AudioBuffer) :
  decoded message st = Some (Normal buf) ->
  onmessage_begin message st
  = (Normal (Some (mkSuspended message (Normal buf))), synced st).
Proof.
  intros Hdec. rewrite onmessage_begin_eq, Hdec. unfold decoded in Hdec.
  destruct (truthy (base64Audio_of message)) as [b64|]; [|discriminate].
  destruct (outputAudioContextRef st); [|discriminate].
  destruct (outputNodeRef st); [|discriminate].
  destruct (decode b64); [reflexivity|discriminate].
Qed.

(** A run of callbacks that run to their end, with no handler suspended,
    is a run of the event trace. *)
Lemma async_run_callbacks (trace : list Event) : forall a,
  async_run (map Callback trace) a = mkAsync (run trace (component a)) (awaiting a).
Proof.
  induction trace as [|ev trace IH]; intros a; [now destruct a|].
  cbn [map async_run fold_left]. change (fold_left _ ?t ?x) with (async_run t x).
  rewrite IH. reflexivity.
Qed.

Lemma undisturbed_callbacks (trace : list Event) : forall a,
  awaiting a = [] -> undisturbed (map Callback trace) a = true.
Proof.
  induction trace as [|ev trace IH]; intros a Ha; [reflexivity|].
  cbn [map undisturbed]. unfold undisturbed_step. rewrite Ha. cbn [andb].
  apply IH. exact Ha.
Qed.

End MoreAsyncFacts.

(** ** Further properties of the component *)

Section Reachable.

Context `{AudioUtils}.

(** X1. The status is never ERROR once a callback has completed: in every
    state reachable from the first render, whatever the events, the
    status is DISCONNECTED, CONNECTING or CONNECTED. Both places that set
    ERROR ([onerror] and the [catch] of [connect]) call [cleanup] next,
    which sets DISCONNECTED. *)
Theorem status_never_ERROR (trace : list Event) :
  status (run trace initial) = DISCONNECTED
  \/ status (run trace initial) = CONNECTING
  \/ status (run trace initial) = CONNECTED.
Proof.
  destruct (scheduler_ok_run trace initial scheduler_ok_initial) as (_ & _ & _ & _ & Hs).
  destruct (status (run trace initial)); auto. congruence.
Qed.

(** X2. While any playback handle is in the active-source set the
    examiner-speaking indicator is on, in every state reached by a run in
    which nothing switches the indicator off while a message handler is
    suspended at the awaited decode: no handle ends, no session is
    started or torn down and no interruption is processed in between.
    Runs in which every handler is resumed at once are among them. *)
Theorem indicator_on_while_playing (trace : list Step) :
  undisturbed trace initial_async = true ->
  sourcesRef (component (async_run trace initial_async)) <> [] ->
  isAiSpeaking (component (async_run trace initial_async)) = true.
Proof.
  intros Hu.
  apply (indicator_ok_run trace initial_async Hu handles_ok_initial indicator_ok_initial).
Qed.

(** X3. In every reachable state each playback handle ever created has a
    buffer, is connected to the output and was started, and each handle
    of the active-source set exists, was started and has not been
    stopped. *)
Theorem handles_well_formed (trace : list Event) :
  let st := run trace initial in
  (forall n, In n (sourceNodes st) ->
             buffer n <> None /\ connected n = true /\ started n <> None)
  /\ (forall source, In source (sourcesRef st) ->
        exists n s, nth_error (sourceNodes st) source = Some n
                    /\ started n = Some s /\ stopped n = false).
Proof.
  intros st.
  destruct (scheduler_ok_run trace initial scheduler_ok_initial) as (H1 & H2 & H3 & _).
  fold st in H1, H2, H3. unfold sources_started in H1.
  rewrite forallb_forall in H1, H2, H3. split.
  - intros n Hn. specialize (H2 n Hn). unfold handle_complete in H2.
    destruct (buffer n), (started n); try discriminate. repeat split; congruence.
  - intros source Hs. specialize (H1 source Hs). specialize (H3 source Hs).
    unfold handle_started in H1. unfold handle_stopped in H3.
    destruct (nth_error (sourceNodes st) source) as [n|]; [|discriminate].
    destruct (started n) as [s|] eqn:S; [|discriminate].
    exists n, s. repeat split; trivial. now apply negb_true_iff in H3.
Qed.

(** X4. When the decoder throws on the audio of a message, [onmessage]
    throws too, after it has switched the examiner-speaking indicator on
    and synchronised [nextStartTimeRef] with the clock: no handle is
    created, the active-source set is as before, and the interruption
    branch is not reached even if the message carries the flag. *)
Theorem onmessage_decode_failure (message : LiveServerMessage) (st : App) (e : Exn) :
  decoded message st = Some (Throw e) ->
  let st' := exec (onmessage message) st in
  completion (onmessage message) st = Throw e
  /\ isAiSpeaking st' = true
  /\ nextStartTimeRef st' = Number.Math_max (nextStartTimeRef st) (clock_of st)
  /\ sourceNodes st' = sourceNodes st
  /\ sourcesRef st' = sourcesRef st
  /\ console st' = console st
  /\ status st' = status st.
Proof.
  intros Hdec st'. subst st'. unfold completion, exec.
  rewrite onmessage_eq, Hdec. repeat split.
Qed.

(** X5. Inline audio is ignored while the output context or the gain node
    is missing: a message without the interruption flag then leaves the
    component unchanged. *)
Theorem onmessage_without_output (message : LiveServerMessage) (st : App) :
  outputAudioContextRef st = None \/ outputNodeRef st = None ->
  interrupted_of message = false ->
  onmessage message st = (Normal tt, st).
Proof.
  intros Hnone Hint. rewrite onmessage_eq, Hint.
  assert (Hdec : decoded message st = None).
  { unfold decoded. destruct (truthy _); [|reflexivity].
    destruct Hnone as [-> | ->]; [reflexivity|].
    now destruct (outputAudioContextRef st). }
  now rewrite Hdec.
Qed.

(** X6. The ['ended'] listener removes exactly the handle that ended from
    the active-source set; it switches the examiner-speaking indicator
    off when the set has become empty and leaves it alone otherwise; it
    touches neither [nextStartTimeRef] nor the handles themselves. *)
Theorem onended_effect (source : nat) (st : App) :
  let st' := exec (onended source) st in
  completion (onended source) st = Normal tt
  /\ (forall x, In x (sourcesRef st') <-> In x (sourcesRef st) /\ x <> source)
  /\ (sourcesRef st' = [] -> isAiSpeaking st' = false)
  /\ (sourcesRef st' <> [] -> isAiSpeaking st' = isAiSpeaking st)
  /\ nextStartTimeRef st' = nextStartTimeRef st
  /\ sourceNodes st' = sourceNodes st
  /\ status st' = status st.
Proof.
  intros st'. subst st'. unfold completion, exec. rewrite onended_eq. cbn [fst snd].
  assert (Hmem : forall x, In x (Set_delete source (sourcesRef st))
                           <-> In x (sourcesRef st) /\ x <> source).
  { intros x. unfold Set_delete. rewrite filter_In, negb_true_iff, Nat.eqb_neq.
    intuition congruence. }
  destruct (Set_delete source (sourcesRef st)) as [|y l] eqn:E.
  - destruct st; cbn in *. repeat split; try apply Hmem; try congruence; tauto.
  - remember (y :: l) as remaining eqn:Er.
    assert (Hne : remaining <> []) by (subst; discriminate). clear Er E.
    destruct st; cbn in *. repeat split; try apply Hmem; try congruence; tauto.
Qed.

(** X7. A chunk scheduled on an idle scheduler and then ended naturally
    leaves the scheduler idle again: the active-source set is empty, the
    indicator is off, the handle was not stopped, and [nextStartTimeRef]
    keeps the end time of the chunk. *)
Theorem chunk_played_to_end (message : LiveServerMessage) (st : App) (buf : AudioBuffer) :
  sourcesRef st = [] ->
  decoded message st = Some (Normal buf) ->
  interrupted_of message = false ->
  let source := List.length (sourceNodes st) in
  let st1 := exec (onmessage message) st in
  let st2 := exec (onended source) st1 in
  sourcesRef st1 = [source]
  /\ isAiSpeaking st1 = true
  /\ sourcesRef st2 = []
  /\ isAiSpeaking st2 = false
  /\ nth_error (sourceNodes st2) source
     = Some (mkSource (Some buf) true
               (Some (Number.Math_max (nextStartTimeRef st) (clock_of st))) false)
  /\ nextStartTimeRef st2
     = (Number.Math_max (nextStartTimeRef st) (clock_of st) + duration buf)%float.
Proof.
  intros Hidle Hdec Hint source st1 st2. subst st2 st1 source.
  unfold exec. rewrite onmessage_eq, Hdec, Hint. cbn [snd ret].
  rewrite onended_eq. cbn [snd].
  unfold scheduled. destruct st; cbn in *. subst. cbn.
  rewrite Nat.eqb_refl. cbn. repeat split. apply nth_error_app_last.
Qed.

(** X8. Neither [cleanup] nor [connect] nor [onopen] resets
    [nextStartTimeRef]: it survives the end of a session and the start of
    the next one, whose output clock starts again at 0. The first chunk
    of the new session is therefore started at the larger of the old
    [nextStartTimeRef] and the new clock's reading, that is at the old
    value when the new clock is still below it. *)
Theorem nextStartTime_survives_reconnect (env : Environment) (stream : MediaStream)
  (st : App) (t : float) (message : LiveServerMessage) (buf : AudioBuffer) :
  API_KEY env <> EmptyString ->
  getUserMedia env = Normal stream ->
  let st1 := exec (advance_clock t) (exec onopen (exec (connect env) (exec cleanup st))) in
  decoded message st1 = Some (Normal buf) ->
  interrupted_of message = false ->
  nextStartTimeRef st1 = nextStartTimeRef st
  /\ clock_of (exec onopen (exec (connect env) (exec cleanup st))) = 0%float
  /\ clock_of st1 = t
  /\ nth_error (sourceNodes (exec (onmessage message) st1)) (List.length (sourceNodes st1))
     = Some (mkSource (Some buf) true
               (Some (Number.Math_max (nextStartTimeRef st) t)) false)
  /\ ((t <? nextStartTimeRef st)%float = true ->
      Number.Math_max (nextStartTimeRef st) t = nextStartTimeRef st).
Proof.
  intros Hkey Hgum st1 Hdec Hint.
  assert (Hst1 : nextStartTimeRef st1 = nextStartTimeRef st /\ clock_of st1 = t
                 /\ clock_of (exec onopen (exec (connect env) (exec cleanup st))) = 0%float).
  { assert (E : exec onopen (exec (connect env) (exec cleanup st))
                = opened (session_requested stream (released st))).
    { unfold exec. rewrite cleanup_released. cbn [snd]. rewrite connect_eq.
      destruct (API_KEY env); [congruence|]. rewrite Hgum. cbn [snd].
      now rewrite onopen_eq. }
    subst st1. rewrite E.
    destruct (advance_clock_frame t (opened (session_requested stream (released st))))
      as (_ & -> & _).
    split; [reflexivity|]. split; [|reflexivity].
    apply clock_of_advance. discriminate. }
  destruct Hst1 as (Hn & Hc & H0).
  split; [exact Hn|]. split; [exact H0|]. split; [exact Hc|]. split.
  - unfold exec at 1. rewrite onmessage_eq, Hdec, Hint. cbn [snd ret].
    rewrite sourceNodes_scheduled, nth_error_app_last, Hn, Hc. reflexivity.
  - apply NumberMore.Math_max_gt.
Qed.

(** X9. With a credential and a granted microphone, [connect] followed by
    the service's [onopen] leaves the component CONNECTED with both
    contexts running at 16 kHz and 24 kHz, the gain node connected, the
    stream kept, the capture pipeline connected with its callback
    installed, and a fresh session promise held on which nothing is
    chained yet; the playback scheduler and the earlier session promises
    are untouched. *)
Theorem connect_then_open (env : Environment) (stream : MediaStream) (st : App) :
  API_KEY env <> EmptyString ->
  getUserMedia env = Normal stream ->
  let st1 := exec (connect env) st in
  let st2 := exec onopen st1 in
  completion (connect env) st = Normal tt
  /\ completion onopen st1 = Normal tt
  /\ status st1 = CONNECTING
  /\ status st2 = CONNECTED
  /\ inputAudioContextRef st2 = Some (mkAudioContext 16000%float running 0%float)
  /\ outputAudioContextRef st2 = Some (mkAudioContext 24000%float running 0%float)
  /\ outputNodeRef st2 = Some (mkGain true)
  /\ streamRef st2 = Some stream
  /\ inputSourceRef st2 = Some (mkInputSource true)
  /\ processorRef st2 = Some (mkProcessor true true)
  /\ sessionPromiseRef st2 = Some (List.length (sessionPromises st))
  /\ sessionPromises st2 = sessionPromises st ++ [[]]
  /\ nextStartTimeRef st2 = nextStartTimeRef st
  /\ sourcesRef st2 = sourcesRef st
  /\ sourceNodes st2 = sourceNodes st.
Proof.
  intros Hkey Hgum st1 st2. subst st2 st1. unfold completion, exec.
  rewrite connect_eq. destruct (API_KEY env); [congruence|]. rewrite Hgum.
  cbn [fst snd]. rewrite onopen_eq. cbn [fst snd].
  unfold opened. cbn. repeat split.
Qed.

(** X10. [cleanup] releases everything the refs reach, from any state:
    the session promise that was held gets [session.close()] chained
    after what was already chained on it and the ref is nulled; every
    started handle of the active-source set is stopped; both contexts are
    closed; every track is ended; the processor is disconnected and its
    callback removed; the input source is disconnected. It leaves the
    gain node and [nextStartTimeRef] as they were, and nulls no other
    ref. *)
Theorem cleanup_releases_everything (st : App) :
  let st' := exec cleanup st in
  sessionPromiseRef st' = None
  /\ (forall p pending,
         sessionPromiseRef st = Some p ->
         nth_error (sessionPromises st) p = Some pending ->
         nth_error (sessionPromises st') p = Some (pending ++ [SessionClose]))
  /\ (forall source,
         In source (sourcesRef st) ->
         handle_started (sourceNodes st) source = true ->
         handle_stopped (sourceNodes st') source = true)
  /\ (forall ctx, inputAudioContextRef st = Some ctx ->
                  inputAudioContextRef st'
                  = Some (mkAudioContext (sampleRate ctx) closed (currentTime ctx)))
  /\ (forall ctx, outputAudioContextRef st = Some ctx ->
                  outputAudioContextRef st'
                  = Some (mkAudioContext (sampleRate ctx) closed (currentTime ctx)))
  /\ (forall tracks, streamRef st = Some tracks ->
                     streamRef st' = Some (map (fun _ => ended) tracks))
  /\ (forall processor, processorRef st = Some processor ->
                        processorRef st' = Some (mkProcessor false false))
  /\ (forall node, inputSourceRef st = Some node ->
                   inputSourceRef st' = Some (mkInputSource false))
  /\ outputNodeRef st' = outputNodeRef st
  /\ nextStartTimeRef st' = nextStartTimeRef st.
Proof.
  intros st'. subst st'. unfold exec. rewrite cleanup_released. cbn [snd].
  unfold released. cbn.
  split; [reflexivity|]. split.
  { intros p pending -> Hp. rewrite nth_error_update_nth, Nat.eqb_refl, Hp. reflexivity. }
  split; [intros source Hin Hs; now apply stop_all_stopped|].
  split; [intros [r [] t] ->; reflexivity|].
  split; [intros [r [] t] ->; reflexivity|].
  split; [now intros tracks ->|].
  split; [now intros processor ->|].
  split; [now intros node ->|].
  split; reflexivity.
Qed.

(** X11. When the microphone request of [connect] is rejected, the
    [catch] block tears down what was just created: [connect] completes
    without throwing, the status is DISCONNECTED, both new contexts are
    closed, no session promise is created, no stream is stored, and no
    alert is raised. *)
Theorem connect_refused_microphone (env : Environment) (e : Exn) (st : App) :
  API_KEY env <> EmptyString ->
  getUserMedia env = Throw e ->
  let st' := exec (connect env) st in
  completion (connect env) st = Normal tt
  /\ status st' = DISCONNECTED
  /\ inputAudioContextRef st' = Some (mkAudioContext 16000%float closed 0%float)
  /\ outputAudioContextRef st' = Some (mkAudioContext 24000%float closed 0%float)
  /\ sessionPromiseRef st' = None
  /\ List.length (sessionPromises st') = List.length (sessionPromises st)
  /\ streamRef st' = option_map (map (fun _ => ended)) (streamRef st)
  /\ alerts st' = alerts st
  /\ sourcesRef st' = []
  /\ isAiSpeaking st' = false.
Proof.
  intros Hkey Hgum st'. subst st'. unfold completion, exec.
  rewrite connect_eq. destruct (API_KEY env); [congruence|]. rewrite Hgum.
  cbn [fst snd]. unfold released. cbn.
  repeat split.
  destruct (sessionPromiseRef st); [apply update_nth_length|reflexivity].
Qed.

(** X12. Without a session promise (before [connect], after [cleanup])
    the capture callback drops the frame: it sets the user-speaking
    indicator from the frame's RMS and changes nothing else; nothing is
    chained on any session promise. *)
Theorem capture_without_session (inputData : list float) (st : App) :
  sessionPromiseRef st = None ->
  onaudioprocess inputData st =
  (Normal tt, set_isUserSpeaking (0.02 <? rms_of inputData)%float st)
  /\ sessionPromises (exec (onaudioprocess inputData) st) = sessionPromises st.
Proof.
  intros Hnone. unfold exec. rewrite onaudioprocess_eq, Hnone. split; reflexivity.
Qed.

(** X13. [cleanup] closes the output context but keeps the refs to it and
    to the gain node, so an audio chunk that arrives after the teardown
    still takes the audio branch: with the status DISCONNECTED a handle
    is created on the closed context and started, the active-source set
    holds it, and the examiner-speaking indicator is switched on. *)
Theorem message_after_cleanup (message : LiveServerMessage) (st : App) (buf : AudioBuffer) :
  decoded message (exec cleanup st) = Some (Normal buf) ->
  interrupted_of message = false ->
  let st' := exec (onmessage message) (exec cleanup st) in
  completion (onmessage message) (exec cleanup st) = Normal tt
  /\ status st' = DISCONNECTED
  /\ option_map state (outputAudioContextRef st') = Some closed
  /\ isAiSpeaking st' = true
  /\ sourcesRef st' = [List.length (sourceNodes st)]
  /\ nth_error (sourceNodes st') (List.length (sourceNodes st))
     = Some (mkSource (Some buf) true
               (Some (Number.Math_max (nextStartTimeRef st) (clock_of st))) false).
Proof.
  intros Hdec Hint st'.
  assert (E0 : exec cleanup st = released st)
    by (unfold exec; now rewrite cleanup_released).
  subst st'. rewrite E0 in *.
  assert (E : onmessage message (released st) = (Normal tt, scheduled (released st) buf))
    by (now rewrite onmessage_eq, Hdec, Hint).
  pose proof (decoded_context _ _ _ Hdec) as Hctx.
  unfold completion, exec. rewrite E. cbn [fst snd].
  assert (Hlen : List.length (sourceNodes (released st)) = List.length (sourceNodes st))
    by apply stop_all_length.
  assert (Hclock : clock_of (released st) = clock_of st).
  { unfold clock_of, released. cbn. apply clock_of_closed. }
  split; [reflexivity|]. split; [reflexivity|]. split.
  - unfold scheduled, released in *. cbn in *.
    destruct (outputAudioContextRef st) as [[r [] t]|]; cbn in *; congruence.
  - split; [reflexivity|]. split.
    + unfold scheduled. cbn. now rewrite stop_all_length.
    + rewrite sourceNodes_scheduled, <- Hlen, nth_error_app_last, Hclock. reflexivity.
Qed.

(** X14. As long as the clock's readings are numbers and the decoder
    returns buffers of finite duration, no NaN enters the scheduler: in
    every state reached from the first render [nextStartTimeRef] is not
    NaN and no handle was started at NaN. *)
Theorem starts_never_NaN (trace : list Event) :
  clean_run trace initial ->
  is_nan (nextStartTimeRef (run trace initial)) = false
  /\ (forall n s, In n (sourceNodes (run trace initial)) ->
                  started n = Some s -> is_nan s = false).
Proof.
  intros Hclean.
  assert (Hinit : numbers_ok initial) by (repeat split).
  destruct (numbers_ok_run trace initial scheduler_ok_initial Hinit Hclean)
    as (H1 & _ & H3).
  split; [exact H1|]. intros n s Hn Hs.
  unfold starts_are_numbers in H3. rewrite forallb_forall in H3.
  specialize (H3 n Hn). rewrite Hs in H3. now apply negb_true_iff in H3.
Qed.

(** X15. The caption follows the playback as long as nothing switches
    the indicator off while a message handler is suspended: in every
    state reached by such a run in which the status is CONNECTED and a
    handle is in the active-source set, the examiner's visualizer is
    rendered active and the caption reads "Examiner is speaking...". *)
Theorem caption_follows_playback (trace : list Step) :
  undisturbed trace initial_async = true ->
  status (component (async_run trace initial_async)) = CONNECTED ->
  sourcesRef (component (async_run trace initial_async)) <> [] ->
  examinerActive (render (component (async_run trace initial_async))) = Some true
  /\ caption (render (component (async_run trace initial_async)))
     = "Examiner is speaking..."%string.
Proof.
  intros Hu Hs Hne.
  destruct (indicator_ok_run trace initial_async Hu handles_ok_initial indicator_ok_initial)
    as [Hset _].
  specialize (Hset Hne). unfold render. rewrite Hs, Hset. split; reflexivity.
Qed.

(** X20. Playback is gapless when chunks arrive in time: a chunk that
    arrives while the clock is still before the end of the chunk
    scheduled before it starts exactly at that end, the first chunk's
    start plus its duration. *)
Theorem gapless_playback (message1 message2 : LiveServerMessage) (st : App)
  (buf1 buf2 : AudioBuffer) (t : float) :
  decoded message1 st = Some (Normal buf1) ->
  interrupted_of message1 = false ->
  let start1 := Number.Math_max (nextStartTimeRef st) (clock_of st) in
  let end1 := (start1 + duration buf1)%float in
  let st1 := exec (advance_clock t) (exec (onmessage message1) st) in
  decoded message2 st1 = Some (Normal buf2) ->
  interrupted_of message2 = false ->
  (t <? end1)%float = true ->
  let st2 := exec (onmessage message2) st1 in
  nth_error (sourceNodes st2) (List.length (sourceNodes st))
  = Some (mkSource (Some buf1) true (Some start1) false)
  /\ nth_error (sourceNodes st2) (S (List.length (sourceNodes st)))
     = Some (mkSource (Some buf2) true (Some end1) false)
  /\ nextStartTimeRef st2 = (end1 + duration buf2)%float.
Proof.
  intros Hdec1 Hint1 start1 end1 st1 Hdec2 Hint2 Hlt st2.
  assert (E1 : exec (onmessage message1) st = scheduled st buf1)
    by (unfold exec; now rewrite onmessage_eq, Hdec1, Hint1).
  destruct (advance_clock_frame t (scheduled st buf1)) as (_ & Hn & Hs & _).
  assert (Hclock : clock_of st1 = t).
  { subst st1. rewrite E1. apply clock_of_advance.
    pose proof (decoded_context _ _ _ Hdec1) as Hctx. now destruct st. }
  assert (Hnext : nextStartTimeRef st1 = end1) by (subst st1; now rewrite E1, Hn).
  assert (Hnodes : sourceNodes st1
                   = sourceNodes st ++ [mkSource (Some buf1) true (Some start1) false])
    by (subst st1; now rewrite E1, Hs).
  assert (E2 : st2 = scheduled st1 buf2)
    by (subst st2; unfold exec; now rewrite onmessage_eq, Hdec2, Hint2).
  clearbody st1 st2. subst st2.
  assert (Hnext2 : nextStartTimeRef (scheduled st1 buf2)
                   = (Number.Math_max (nextStartTimeRef st1) (clock_of st1)
                      + duration buf2)%float) by reflexivity.
  rewrite Hnext2, sourceNodes_scheduled, Hnodes, Hnext, Hclock.
  rewrite (NumberMore.Math_max_gt _ _ Hlt).
  split; [|split].
  - rewrite nth_error_app1 by (rewrite length_app; cbn; lia).
    apply nth_error_app_last.
  - replace (S (List.length (sourceNodes st)))
      with (List.length (sourceNodes st ++ [mkSource (Some buf1) true (Some start1) false]))
      by (rewrite length_app; cbn; lia).
    apply nth_error_app_last.
  - reflexivity.
Qed.

(** X21. Frames are chained on the session promise in the order they are
    captured, and [cleanup] chains the close after them: after the frames
    [frames] and then [cleanup], the promise that was held carries what
    it carried before, then one [sendRealtimeInput] per frame in order,
    then [session.close()]. *)
Theorem frames_then_close (frames : list (list float)) (st : App) (p : nat)
  (pending : list Reaction) :
  sessionPromiseRef st = Some p ->
  nth_error (sessionPromises st) p = Some pending ->
  nth_error (sessionPromises (run (map AudioProcess frames ++ [Disconnect]) st)) p
  = Some (pending ++ map (fun frame => SendRealtimeInput (createPcmBlob frame)) frames
            ++ [SessionClose]).
Proof.
  revert st pending. induction frames as [|frame frames IH]; intros st pending Hp Hpending.
  - cbn. unfold exec. rewrite cleanup_released. unfold released. cbn.
    now rewrite Hp, nth_error_update_nth, Nat.eqb_refl, Hpending.
  - cbn [map app run fold_left handle].
    change (fold_left (fun st0 ev => exec (handle ev) st0)
              (map AudioProcess frames ++ [Disconnect])
              (exec (onaudioprocess frame) st))
      with (run (map AudioProcess frames ++ [Disconnect]) (exec (onaudioprocess frame) st)).
    unfold exec at 1. rewrite onaudioprocess_eq, Hp. cbn [snd].
    rewrite (IH _ (pending ++ [SendRealtimeInput (createPcmBlob frame)])).
    + now rewrite <- app_assoc.
    + now destruct st.
    + cbn. now rewrite nth_error_update_nth, Nat.eqb_refl, Hpending.
Qed.

(** X22. [onclose] leaves the capture running: a frame captured after the
    service closed the session is still encoded and chained on the
    promise of the closed session, and the user-speaking indicator still
    follows the microphone. *)
Theorem capture_continues_after_close (inputData : list float) (st : App) (p : nat)
  (pending : list Reaction) :
  sessionPromiseRef st = Some p ->
  nth_error (sessionPromises st) p = Some pending ->
  let st' := exec (onaudioprocess inputData) (exec onclose st) in
  status st' = DISCONNECTED
  /\ processorRef st' = processorRef st
  /\ isUserSpeaking st' = (0.02 <? rms_of inputData)%float
  /\ nth_error (sessionPromises st') p
     = Some (pending ++ [SendRealtimeInput (createPcmBlob inputData)]).
Proof.
  intros Hp Hpending st'. subst st'. unfold exec at 1 3 5 7.
  rewrite onaudioprocess_eq. cbn. rewrite Hp. cbn.
  repeat split. now rewrite nth_error_update_nth, Nat.eqb_refl, Hpending.
Qed.

(** X23. The voice-activity test fails safe on degenerate frames: for an
    empty frame and for a frame that contains a NaN sample the RMS is NaN
    and the user-speaking indicator is switched off. *)
Theorem indicator_off_on_degenerate_frame (inputData : list float) (st : App) :
  inputData = [] \/ (exists x, In x inputData /\ is_nan x = true) ->
  is_nan (rms_of inputData) = true
  /\ isUserSpeaking (exec (onaudioprocess inputData) st) = false.
Proof.
  intros Hdeg.
  assert (Hnan : is_nan (rms_of inputData) = true).
  { destruct Hdeg as [->|(x & Hin & Hx)]; [reflexivity|].
    unfold rms_of, sum_of_squares.
    apply NaNFacts.sqrt_nan, NaNFacts.div_nan_l.
    now apply (NaNFacts.sum_of_squares_nan inputData 0%float x). }
  split; [exact Hnan|].
  unfold exec. rewrite onaudioprocess_eq.
  assert (Hlt : (0.02 <? rms_of inputData)%float = false)
    by (now apply NaNFacts.ltb_nan_r).
  rewrite Hlt. now destruct (sessionPromiseRef st).
Qed.

(** X24. In a reachable state [onmessage] throws only when the decoder
    does: the [stop()] calls of the interruption branch, which are not
    inside a [try], never throw, because every handle of the
    active-source set was started. *)
Theorem onmessage_throws_only_on_decode_failure (trace : list Event)
  (message : LiveServerMessage) (e : Exn) :
  completion (onmessage message) (run trace initial) = Throw e ->
  decoded message (run trace initial) = Some (Throw e).
Proof.
  pose proof (sources_started_run trace initial eq_refl) as Hinv.
  unfold completion. rewrite onmessage_eq.
  destruct (decoded message (run trace initial)) as [[buf|e']|].
  - destruct (interrupted_of message); [|discriminate].
    rewrite interrupt_eq by (now apply sources_started_scheduled). discriminate.
  - cbn. congruence.
  - destruct (interrupted_of message); [|discriminate].
    rewrite interrupt_eq by exact Hinv. discriminate.
Qed.

(** X25. An interruption that is processed while a chunk is being
    decoded does not cancel that chunk. The interruption stops the
    handles that were active, empties the set, resets [nextStartTimeRef]
    to 0 and switches the indicator off; when the suspended handler
    resumes it starts the new handle at 0, that is at once, puts it in
    the set and leaves the indicator off. *)
Theorem interruption_during_decode (message interruption : LiveServerMessage) (st : App)
  (buf : AudioBuffer) :
  sources_started st = true ->
  decoded message st = Some (Normal buf) ->
  interrupted_of message = false ->
  truthy (base64Audio_of interruption) = None ->
  interrupted_of interruption = true ->
  let a := async_run [Suspend message; Callback (Message interruption); Resume 0]
             (mkAsync st []) in
  awaiting a = []
  /\ sourcesRef (component a) = [List.length (sourceNodes st)]
  /\ nth_error (sourceNodes (component a)) (List.length (sourceNodes st))
     = Some (mkSource (Some buf) true (Some 0%float) false)
  /\ isAiSpeaking (component a) = false
  /\ nextStartTimeRef (component a) = (0 + duration buf)%float
  /\ (forall source, In source (sourcesRef st) ->
        handle_stopped (sourceNodes (component a)) source = true).
Proof.
  intros Hinv Hdec Hflag Hnone Hint a. subst a.
  cbn [async_run fold_left async_step handle component awaiting].
  rewrite (onmessage_begin_decoded _ _ _ Hdec). cbn [component awaiting app].
  assert (E : exec (onmessage interruption) (synced st) = interrupted_state (synced st)).
  { unfold exec. rewrite onmessage_eq. unfold decoded. rewrite Hnone, Hint.
    now rewrite interrupt_eq by exact Hinv. }
  rewrite E. cbn [nth_error component awaiting].
  unfold exec. rewrite onmessage_resume_eq. cbn [settles_with awaited_by].
  rewrite Hflag. cbn [ret snd component awaiting].
  assert (Hlen : List.length (sourceNodes (interrupted_state (synced st)))
                 = List.length (sourceNodes st)) by apply stop_all_length.
  split; [reflexivity|]. split; [|split; [|split; [|split]]].
  - unfold resumed. cbn [sourcesRef set_sourcesRef]. now rewrite Hlen.
  - unfold resumed at 1. cbn [sourceNodes set_sourcesRef set_nextStartTimeRef set_sourceNodes].
    rewrite <- Hlen. apply nth_error_app_last.
  - reflexivity.
  - reflexivity.
  - intros source Hin. unfold sources_started in Hinv.
    rewrite forallb_forall in Hinv. specialize (Hinv source Hin).
    unfold resumed. cbn [sourceNodes set_sourcesRef set_nextStartTimeRef set_sourceNodes].
    rewrite handle_stopped_app.
    + now apply stop_all_stopped.
    + rewrite Hlen. now apply handle_started_lt.
Qed.

(** X28. When the only active handle ends while the next chunk is being
    decoded, the listener switches the indicator off and the resumed
    handler does not switch it on again: the next chunk plays, from the
    start time synchronised before the await, with the indicator off. *)
Theorem chunk_ends_during_decode (message : LiveServerMessage) (st : App)
  (buf : AudioBuffer) (source : nat) :
  sourcesRef st = [source] ->
  decoded message st = Some (Normal buf) ->
  interrupted_of message = false ->
  let a := async_run [Suspend message; Callback (Ended source); Resume 0] (mkAsync st []) in
  awaiting a = []
  /\ sourcesRef (component a) = [List.length (sourceNodes st)]
  /\ nth_error (sourceNodes (component a)) (List.length (sourceNodes st))
     = Some (mkSource (Some buf) true
               (Some (Number.Math_max (nextStartTimeRef st) (clock_of st))) false)
  /\ isAiSpeaking (component a) = false.
Proof.
  intros Hset Hdec Hflag a. subst a.
  cbn [async_run fold_left async_step handle component awaiting].
  rewrite (onmessage_begin_decoded _ _ _ Hdec). cbn [component awaiting app].
  assert (E : exec (onended source) (synced st)
              = set_isAiSpeaking false (set_sourcesRef [] (synced st))).
  { unfold exec. rewrite onended_eq. cbn [snd]. unfold synced at 1.
    cbn [sourcesRef set_nextStartTimeRef set_isAiSpeaking]. rewrite Hset.
    cbn. now rewrite Nat.eqb_refl. }
  rewrite E. cbn [nth_error component awaiting].
  unfold exec. rewrite onmessage_resume_eq. cbn [settles_with awaited_by].
  rewrite Hflag. cbn [ret snd component awaiting].
  split; [reflexivity|]. split; [reflexivity|]. split; [|reflexivity].
  unfold resumed. cbn. apply nth_error_app_last.
Qed.

(** X26. Whatever runs between the two halves of [onmessage], as long
    as no session is started while a handler is suspended, in every
    state reached from the first render the status is not ERROR, each
    handle ever created has a buffer, is connected and was started, and
    each handle of the active-source set exists, was started and has not
    been stopped. *)
Theorem suspended_handles_well_formed (trace : list Step) :
  context_kept trace initial_async = true ->
  let st := component (async_run trace initial_async) in
  (status st = DISCONNECTED \/ status st = CONNECTING \/ status st = CONNECTED)
  /\ (forall n, In n (sourceNodes st) ->
                buffer n <> None /\ connected n = true /\ started n <> None)
  /\ (forall source, In source (sourcesRef st) ->
        exists n s, nth_error (sourceNodes st) source = Some n
                    /\ started n = Some s /\ stopped n = false).
Proof.
  intros _ st.
  destruct (handles_ok_run trace initial_async handles_ok_initial) as (H1 & H2 & H3 & H5).
  fold st in H1, H2, H3, H5. unfold sources_started in H1.
  rewrite forallb_forall in H1, H2, H3. split; [|split].
  - destruct (status st); auto. congruence.
  - intros n Hn. specialize (H2 n Hn). unfold handle_complete in H2.
    destruct (buffer n), (started n); try discriminate. repeat split; congruence.
  - intros source Hs. specialize (H1 source Hs). specialize (H3 source Hs).
    unfold handle_started in H1. unfold handle_stopped in H3.
    destruct (nth_error (sourceNodes st) source) as [n|]; [|discriminate].
    destruct (started n) as [s|] eqn:S; [|discriminate].
    exists n, s. repeat split; trivial. now apply negb_true_iff in H3.
Qed.

(** X27. Handling a message in one step is suspending its handler and
    resuming it before anything else runs, whether or not the handler
    reaches the await and whatever other handlers are suspended. *)
Theorem suspend_then_resume_is_onmessage (message : LiveServerMessage) (a : Async) :
  async_run [Suspend message; Resume (List.length (awaiting a))] a
  = async_step (Callback (Message message)) a.
Proof.
  cbn [async_run fold_left async_step handle]. unfold exec at 2.
  rewrite onmessage_halves.
  destruct (onmessage_begin message (component a)) as [[[s|]|e] st1];
    cbn [component awaiting].
  - rewrite nth_error_app_last. unfold remove_nth.
    rewrite firstn_app, firstn_all, Nat.sub_diag. cbn [firstn].
    rewrite skipn_all2 by (rewrite length_app; cbn; lia).
    now rewrite !app_nil_r.
  - assert (Hk : nth_error (awaiting a) (List.length (awaiting a)) = None)
      by (now apply nth_error_None).
    rewrite Hk. now destruct a.
  - assert (Hk : nth_error (awaiting a) (List.length (awaiting a)) = None)
      by (now apply nth_error_None).
    rewrite Hk. now destruct a.
Qed.

End Reachable.

(** X16. For every status and permission [Controls] renders exactly one
    of its three controls: the End Session button exactly when the status
    is CONNECTED, the spinner exactly when it is CONNECTING, and the
    microphone button otherwise, disabled exactly when the permission is
    missing. *)
Theorem controls_exactly_one (s : ConnectionStatus) (permission : bool) :
  let rendered := controls (Controls s permission) in
  List.length rendered = 1
  /\ (In EndSessionButton rendered <-> s = CONNECTED)
  /\ (In ConnectingSpinner rendered <-> s = CONNECTING)
  /\ (forall disabled,
         In (MicButton disabled) rendered
         <-> (s = DISCONNECTED \/ s = ERROR) /\ disabled = negb permission).
Proof.
  destruct s, permission; cbn;
    (split; [reflexivity|]); (split; [|split]); try intros disabled;
    intuition (subst; solve [discriminate | congruence | auto]).
Qed.

(** X17. A click starts or ends a session only through an enabled
    control: the microphone click runs [connect] exactly when the
    permission is granted and the status is neither CONNECTED nor
    CONNECTING, and does nothing otherwise; the End Session click runs
    [cleanup] exactly when the status is CONNECTED. *)
Theorem click_effect (env : Environment) (st : App) :
  (hasPermission st = true -> status st <> CONNECTED -> status st <> CONNECTING ->
   click env ClickMic st = connect env st)
  /\ (hasPermission st = false \/ status st = CONNECTED \/ status st = CONNECTING ->
      click env ClickMic st = (Normal tt, st))
  /\ (status st = CONNECTED -> click env ClickEndSession st = cleanup st)
  /\ (status st <> CONNECTED -> click env ClickEndSession st = (Normal tt, st)).
Proof.
  rewrite click_mic_eq, click_end_eq.
  destruct (status st), (hasPermission st); cbn; repeat split;
    try reflexivity; try congruence;
    try (intros [H|[H|H]]; (discriminate H || reflexivity)).
Qed.

(** X18. While the microphone permission is missing no click starts a
    session: whatever the user clicks, and whatever the environment would
    offer, a component that is not CONNECTED stays exactly as it is. *)
Theorem no_session_without_permission (actions : list (Environment * Click)) (st : App) :
  hasPermission st = false ->
  status st <> CONNECTED ->
  clicks actions st = st.
Proof.
  intros Hperm Hs. induction actions as [|[env c] actions IH]; [reflexivity|].
  cbn [clicks fold_left fst snd].
  assert (E : exec (click env c) st = st).
  { unfold exec. destruct c.
    - rewrite click_mic_eq, Hperm. reflexivity.
    - rewrite click_end_eq. destruct (status st); try reflexivity. congruence. }
  rewrite E. exact IH.
Qed.

(** X19. However a session ends, the visualizers disappear and the
    microphone button is back: after [cleanup], after [onclose] and after
    [onerror] the screen shows "Ready to start session" with the
    microphone button as the only control, enabled exactly when the
    permission is granted. *)
Theorem screen_after_session_end (st : App) :
  let idle :=
    mkScreen None None "Ready to start session"
      (Controls DISCONNECTED (hasPermission st)) in
  render (exec cleanup st) = idle
  /\ render (exec onclose st) = idle
  /\ render (exec onerror st) = idle
  /\ controls (panel idle) = [MicButton (negb (hasPermission st))].
Proof.
  cbv zeta. split; [|split; [|split]].
  - unfold exec. now rewrite cleanup_released.
  - reflexivity.
  - unfold exec, onerror, bind, console_log, setStatus, modify.
    now rewrite cleanup_released.
  - reflexivity.
Qed.


(** The interruption of [interrupted_decode_trace] is processed while the
    first chunk is being decoded. The run is not undisturbed, and it ends
    with the chunk started at 0, in the active-source set and not
    stopped, while the indicator is off and the caption reads
    "Listening to you...". *)
Example interruption_during_decode_scenario :
  let st := component (async_run interrupted_decode_trace initial_async) in
  undisturbed interrupted_decode_trace initial_async = false
  /\ context_kept interrupted_decode_trace initial_async = true
  /\ status st = CONNECTED
  /\ sourcesRef st = [0]
  /\ map started (sourceNodes st) = [Some 0%float]
  /\ map stopped (sourceNodes st) = [false]
  /\ isAiSpeaking st = false
  /\ caption (render st) = "Listening to you..."%string.
Proof.
  vm_compute. repeat split.
Qed.

(** *** Witnesses of the further properties *)

Lemma indicator_on_while_playing_witness :
  undisturbed pipelined_trace initial_async = true
  /\ sourcesRef (component (async_run pipelined_trace initial_async)) <> []
  /\ isAiSpeaking (component (async_run pipelined_trace initial_async)) = true.
Proof.
  assert (Hu : undisturbed pipelined_trace initial_async = true)
    by (vm_compute; reflexivity).
  assert (Hne : sourcesRef (component (async_run pipelined_trace initial_async)) <> [])
    by (vm_compute; discriminate).
  split; [exact Hu|]. split; [exact Hne|].
  exact (indicator_on_while_playing pipelined_trace Hu Hne).
Defined.

Lemma onmessage_decode_failure_witness :
  decoded garbled_interrupting_message playing
  = Some (Throw (Rejected "InvalidCharacterError"))
  /\ interrupted_of garbled_interrupting_message = true
  /\ completion (onmessage garbled_interrupting_message) playing
     = Throw (Rejected "InvalidCharacterError")
  /\ sourcesRef (exec (onmessage garbled_interrupting_message) playing) = [0].
Proof.
  split; [reflexivity|]. split; [reflexivity|].
  pose proof (onmessage_decode_failure garbled_interrupting_message playing
                (Rejected "InvalidCharacterError") eq_refl) as Hc.
  cbv zeta in Hc. split; [apply Hc|].
  destruct Hc as (_ & _ & _ & _ & -> & _). reflexivity.
Defined.

Lemma onmessage_without_output_witness :
  (outputAudioContextRef initial = None \/ outputNodeRef initial = None)
  /\ interrupted_of (audio_message four_samples) = false
  /\ onmessage (audio_message four_samples) initial = (Normal tt, initial).
Proof.
  split; [left; reflexivity|]. split; [reflexivity|].
  apply (onmessage_without_output (audio_message four_samples) initial);
    [left|]; reflexivity.
Defined.

Lemma chunk_played_to_end_witness :
  sourcesRef (exec (advance_clock 0.25) session_open) = []
  /\ decoded (audio_message four_samples) (exec (advance_clock 0.25) session_open)
     = Some (Normal four_samples_buffer)
  /\ interrupted_of (audio_message four_samples) = false
  /\ sourcesRef (exec (onended 0) playing) = []
  /\ isAiSpeaking (exec (onended 0) playing) = false.
Proof.
  split; [reflexivity|]. split; [reflexivity|]. split; [reflexivity|].
  pose proof (chunk_played_to_end (audio_message four_samples)
                (exec (advance_clock 0.25) session_open) four_samples_buffer
                eq_refl eq_refl eq_refl) as Hc.
  cbv zeta in Hc. destruct Hc as (_ & _ & Hs & Hi & _).
  split; [exact Hs | exact Hi].
Defined.

Lemma nextStartTime_survives_reconnect_witness :
  API_KEY granted_env <> EmptyString
  /\ getUserMedia granted_env = Normal [live]
  /\ decoded (audio_message four_samples)
       (exec (advance_clock 0.01)
          (exec onopen (exec (connect granted_env) (exec cleanup playing))))
     = Some (Normal four_samples_buffer)
  /\ interrupted_of (audio_message four_samples) = false
  /\ (0.01 <? nextStartTimeRef playing)%float = true
  /\ nth_error
       (sourceNodes
          (exec (onmessage (audio_message four_samples))
             (exec (advance_clock 0.01)
                (exec onopen (exec (connect granted_env) (exec cleanup playing))))))
       1
     = Some (mkSource (Some four_samples_buffer) true
               (Some (nextStartTimeRef playing)) false).
Proof.
  assert (Hkey : API_KEY granted_env <> EmptyString) by discriminate.
  split; [exact Hkey|]. split; [reflexivity|]. split; [reflexivity|].
  split; [reflexivity|]. split; [reflexivity|].
  pose proof (nextStartTime_survives_reconnect granted_env [live] playing 0.01%float
                (audio_message four_samples) four_samples_buffer
                Hkey eq_refl eq_refl eq_refl) as Hc.
  destruct Hc as (_ & _ & _ & Hn & Hmax).
  rewrite (Hmax eq_refl) in Hn. exact Hn.
Defined.

Lemma connect_then_open_witness :
  API_KEY granted_env <> EmptyString
  /\ getUserMedia granted_env = Normal [live]
  /\ status (exec onopen (exec (connect granted_env) initial)) = CONNECTED
  /\ processorRef (exec onopen (exec (connect granted_env) initial))
     = Some (mkProcessor true true).
Proof.
  assert (Hkey : API_KEY granted_env <> EmptyString) by discriminate.
  split; [exact Hkey|]. split; [reflexivity|].
  pose proof (connect_then_open granted_env [live] initial Hkey eq_refl) as Hc.
  cbv zeta in Hc. split; apply Hc.
Defined.

Lemma connect_refused_microphone_witness :
  API_KEY refused_env <> EmptyString
  /\ getUserMedia refused_env = Throw (Rejected "NotAllowedError")
  /\ completion (connect refused_env) initial = Normal tt
  /\ status (exec (connect refused_env) initial) = DISCONNECTED
  /\ outputAudioContextRef (exec (connect refused_env) initial)
     = Some (mkAudioContext 24000%float closed 0%float).
Proof.
  assert (Hkey : API_KEY refused_env <> EmptyString) by discriminate.
  split; [exact Hkey|]. split; [reflexivity|].
  pose proof (connect_refused_microphone refused_env (Rejected "NotAllowedError") initial
                Hkey eq_refl) as Hc.
  cbv zeta in Hc. repeat split; apply Hc.
Defined.

Lemma capture_without_session_witness :
  sessionPromiseRef initial = None
  /\ sessionPromises (exec (onaudioprocess (repeat 0.05%float 8)) initial) = [].
Proof.
  split; [reflexivity|].
  apply (capture_without_session (repeat 0.05%float 8) initial eq_refl).
Defined.

Lemma message_after_cleanup_witness :
  decoded (audio_message four_samples) (exec cleanup playing)
  = Some (Normal four_samples_buffer)
  /\ interrupted_of (audio_message four_samples) = false
  /\ status (exec (onmessage (audio_message four_samples)) (exec cleanup playing))
     = DISCONNECTED
  /\ isAiSpeaking (exec (onmessage (audio_message four_samples)) (exec cleanup playing))
     = true
  /\ sourcesRef (exec (onmessage (audio_message four_samples)) (exec cleanup playing))
     = [1].
Proof.
  split; [reflexivity|]. split; [reflexivity|].
  pose proof (message_after_cleanup (audio_message four_samples) playing
                four_samples_buffer eq_refl eq_refl) as Hc.
  cbv zeta in Hc. destruct Hc as (_ & Hs & _ & Hi & Hr & _).
  split; [exact Hs|]. split; [exact Hi | exact Hr].
Defined.

Lemma starts_never_NaN_witness :
  clean_run interrupted_trace initial
  /\ is_nan
       (nextStartTimeRef
          (run interrupted_trace initial)) = false.
Proof.
  assert (Hclean :
    clean_run interrupted_trace initial).
  { unfold interrupted_trace, playing_trace. cbn [app clean_run clean_event].
    repeat split; reflexivity. }
  split; [exact Hclean|].
  apply (starts_never_NaN interrupted_trace Hclean).
Defined.

Lemma caption_follows_playback_witness :
  undisturbed pipelined_trace initial_async = true
  /\ status (component (async_run pipelined_trace initial_async)) = CONNECTED
  /\ sourcesRef (component (async_run pipelined_trace initial_async)) <> []
  /\ caption (render (component (async_run pipelined_trace initial_async)))
     = "Examiner is speaking..."%string.
Proof.
  assert (Hu : undisturbed pipelined_trace initial_async = true)
    by (vm_compute; reflexivity).
  assert (Hs : status (component (async_run pipelined_trace initial_async)) = CONNECTED)
    by (vm_compute; reflexivity).
  assert (Hne : sourcesRef (component (async_run pipelined_trace initial_async)) <> [])
    by (vm_compute; discriminate).
  split; [exact Hu|]. split; [exact Hs|]. split; [exact Hne|].
  apply (caption_follows_playback pipelined_trace Hu Hs Hne).
Defined.

Lemma no_session_without_permission_witness :
  hasPermission (exec (mount false) initial) = false
  /\ status (exec (mount false) initial) <> CONNECTED
  /\ clicks [(granted_env, ClickMic); (granted_env, ClickEndSession);
             (granted_env, ClickMic)] (exec (mount false) initial)
     = exec (mount false) initial.
Proof.
  assert (Hs : status (exec (mount false) initial) <> CONNECTED) by discriminate.
  split; [reflexivity|]. split; [exact Hs|].
  apply (no_session_without_permission _ (exec (mount false) initial) eq_refl Hs).
Defined.

Lemma gapless_playback_witness :
  decoded (audio_message four_samples) (exec (advance_clock 0.25) session_open)
  = Some (Normal four_samples_buffer)
  /\ interrupted_of (audio_message four_samples) = false
  /\ decoded (audio_message four_samples) (exec (advance_clock 0.2501) playing)
     = Some (Normal four_samples_buffer)
  /\ (0.2501 <? 0.25 + 4 / 24000)%float = true
  /\ nth_error
       (sourceNodes
          (exec (onmessage (audio_message four_samples))
             (exec (advance_clock 0.2501) playing))) 1
     = Some (mkSource (Some four_samples_buffer) true
               (Some (0.25 + 4 / 24000)%float) false).
Proof.
  split; [reflexivity|]. split; [reflexivity|]. split; [reflexivity|].
  split; [reflexivity|].
  pose proof (gapless_playback (audio_message four_samples) (audio_message four_samples)
                (exec (advance_clock 0.25) session_open)
                four_samples_buffer four_samples_buffer 0.2501%float
                eq_refl eq_refl eq_refl eq_refl eq_refl) as Hc.
  cbv zeta in Hc. destruct Hc as (_ & Hc & _). exact Hc.
Defined.

Lemma frames_then_close_witness :
  sessionPromiseRef playing = Some 0
  /\ nth_error (sessionPromises playing) 0 = Some []
  /\ nth_error
       (sessionPromises
          (run (map AudioProcess [[0.5%float]; [0.25%float]] ++ [Disconnect]) playing)) 0
     = Some ([] ++ map (fun frame => SendRealtimeInput (createPcmBlob frame))
                     [[0.5%float]; [0.25%float]]
                ++ [SessionClose]).
Proof.
  split; [reflexivity|]. split; [reflexivity|].
  apply (frames_then_close [[0.5%float]; [0.25%float]] playing 0 [] eq_refl eq_refl).
Defined.

Lemma capture_continues_after_close_witness :
  sessionPromiseRef playing = Some 0
  /\ nth_error (sessionPromises playing) 0 = Some []
  /\ nth_error
       (sessionPromises (exec (onaudioprocess [0.5%float]) (exec onclose playing))) 0
     = Some [SendRealtimeInput (Codec.encode [0.5%float])].
Proof.
  split; [reflexivity|]. split; [reflexivity|].
  pose proof (capture_continues_after_close [0.5%float] playing 0 [] eq_refl eq_refl) as Hc.
  cbv zeta in Hc. apply Hc.
Defined.

Lemma indicator_off_on_degenerate_frame_witness :
  ([0.5; nan; 0.5]%float = [] \/ (exists x, In x [0.5; nan; 0.5]%float /\ is_nan x = true))
  /\ isUserSpeaking (exec (onaudioprocess [0.5; nan; 0.5]%float) playing) = false.
Proof.
  assert (Hdeg : [0.5; nan; 0.5]%float = []
                 \/ (exists x, In x [0.5; nan; 0.5]%float /\ is_nan x = true)).
  { right. exists nan. split; [right; left; reflexivity | reflexivity]. }
  split; [exact Hdeg|].
  apply (indicator_off_on_degenerate_frame [0.5; nan; 0.5]%float playing Hdeg).
Defined.

Lemma onmessage_throws_only_on_decode_failure_witness :
  completion (onmessage garbled_interrupting_message) (run playing_trace initial)
  = Throw (Rejected "InvalidCharacterError")
  /\ decoded garbled_interrupting_message (run playing_trace initial)
     = Some (Throw (Rejected "InvalidCharacterError")).
Proof.
  assert (Hc : completion (onmessage garbled_interrupting_message)
                 (run playing_trace initial)
               = Throw (Rejected "InvalidCharacterError"))
    by (vm_compute; reflexivity).
  split; [exact Hc|].
  apply (onmessage_throws_only_on_decode_failure playing_trace
           garbled_interrupting_message (Rejected "InvalidCharacterError") Hc).
Defined.

Lemma interruption_during_decode_witness :
  sources_started playing = true
  /\ decoded (audio_message four_samples) playing = Some (Normal four_samples_buffer)
  /\ interrupted_of (audio_message four_samples) = false
  /\ truthy (base64Audio_of interruption_message) = None
  /\ interrupted_of interruption_message = true
  /\ sourcesRef
       (component
          (async_run [Suspend (audio_message four_samples);
                      Callback (Message interruption_message); Resume 0]
             (mkAsync playing []))) = [1]
  /\ isAiSpeaking
       (component
          (async_run [Suspend (audio_message four_samples);
                      Callback (Message interruption_message); Resume 0]
             (mkAsync playing []))) = false
  /\ handle_stopped
       (sourceNodes
          (component
             (async_run [Suspend (audio_message four_samples);
                         Callback (Message interruption_message); Resume 0]
                (mkAsync playing [])))) 0 = true.
Proof.
  split; [reflexivity|]. split; [reflexivity|]. split; [reflexivity|].
  split; [reflexivity|]. split; [reflexivity|].
  pose proof (interruption_during_decode (audio_message four_samples) interruption_message
                playing four_samples_buffer eq_refl eq_refl eq_refl eq_refl eq_refl) as Hc.
  cbv zeta in Hc. destruct Hc as (_ & Hset & _ & Hoff & _ & Hstopped).
  split; [exact Hset|]. split; [exact Hoff|].
  apply Hstopped. left. reflexivity.
Defined.

Lemma chunk_ends_during_decode_witness :
  sourcesRef playing = [0]
  /\ decoded (audio_message four_samples) playing = Some (Normal four_samples_buffer)
  /\ interrupted_of (audio_message four_samples) = false
  /\ sourcesRef
       (component
          (async_run [Suspend (audio_message four_samples); Callback (Ended 0); Resume 0]
             (mkAsync playing []))) = [1]
  /\ isAiSpeaking
       (component
          (async_run [Suspend (audio_message four_samples); Callback (Ended 0); Resume 0]
             (mkAsync playing []))) = false.
Proof.
  split; [reflexivity|]. split; [reflexivity|]. split; [reflexivity|].
  pose proof (chunk_ends_during_decode (audio_message four_samples) playing
                four_samples_buffer 0 eq_refl eq_refl eq_refl) as Hc.
  cbv zeta in Hc. destruct Hc as (_ & Hset & _ & Hoff).
  split; [exact Hset | exact Hoff].
Defined.

Lemma suspended_handles_well_formed_witness :
  context_kept interrupted_decode_trace initial_async = true
  /\ (forall source,
        In source (sourcesRef (component (async_run interrupted_decode_trace initial_async))) ->
        exists n s,
          nth_error
            (sourceNodes (component (async_run interrupted_decode_trace initial_async)))
            source = Some n
          /\ started n = Some s /\ stopped n = false).
Proof.
  assert (Hk : context_kept interrupted_decode_trace initial_async = true)
    by (vm_compute; reflexivity).
  split; [exact Hk|].
  pose proof (suspended_handles_well_formed interrupted_decode_trace Hk) as Hc.
  cbv zeta in Hc. apply Hc.
Defined.
